(** * mozi: a prefix-routed relay (src/deno_index.ts)

    A shallow embedding of the request handler of [deno_index.ts] and of
    the router [extractPrefixAndRest], with the properties its
    specification states about them.

    Conventions of the embedding.

    - JavaScript strings are [string]s.  [URL.pathname], header names and
      the keys of [apiMapping] are ASCII, so one [ascii] per code unit is
      exact for them.
    - [apiMapping] is an object literal whose keys are read back with
      [Object.keys], that is in declaration order: an association list.
    - A [Headers] object is its header list in insertion order, names as
      they were handed in.  Its methods follow the Fetch standard: names
      are compared byte-case-insensitively, [set] overwrites the first
      header of that name and drops the others, [get] joins the values of
      one name with [", "], and iteration ([entries], also used by
      [new Headers(init)]) yields lower-cased names in sorted order, one
      combined entry per name ([set-cookie] excepted).  [set] and
      [append] store a value with its leading and trailing HTTP white
      space removed.  Their syntax checks on names and values are not
      modelled: every name and value read out of a received request or
      response passes them.
    - [new Response] throws on a status outside 200-599, on a status
      text that is no reason phrase and on a body given with a null body
      status ([Response.accepts]); [Response.make] is the response it
      builds when these checks pass.  The checks are written out where
      the arguments come from the upstream (the relay, inside the [try]);
      the calls with literal arguments pass them.  A string body brings
      [text/plain;charset=UTF-8] as content type when none is given.
    - The handler performs at most one outbound call.  It is embedded as
      an [Action]: either a finished response, or one [fetch] together
      with the continuation that turns its outcome (a resolved upstream
      response or a thrown error) into the response.
    - [console.log] and [console.error] lines are not modelled. *)

From Stdlib Require Import Bool Ascii String List ZArith Lia Permutation.
Import ListNotations.

#[local] Open Scope list_scope.
#[local] Open Scope string_scope.

(** ** Strings *)

Module Str.

(** [s.startsWith(p)]: [p] is read off the front of [s], code unit by
    code unit. *)
Fixpoint startsWith (s p : string) {struct p} : bool :=
  match p with
  | EmptyString => true
  | String a p' =>
      match s with
      | EmptyString => false
      | String b s' => Ascii.eqb a b && startsWith s' p'
      end
  end.

(** [s.slice(n)] for [0 <= n]: the code units from index [n] on, the
    empty string when [n] is past the end. *)
Fixpoint slice (n : nat) (s : string) : string :=
  match n, s with
  | O, _ => s
  | S _, EmptyString => EmptyString
  | S n', String _ s' => slice n' s'
  end.

(** A template literal prints [null] and [undefined] by name. *)
Definition template (dflt : string) (o : option string) : string :=
  match o with
  | Some s => s
  | None => dflt
  end.

(** JavaScript truthiness of a [string | null]: [null] and [""] are
    falsy. *)
Definition truthy (o : option string) : bool :=
  match o with
  | Some s => negb (Nat.eqb (String.length s) 0)
  | None => false
  end.

End Str.

(** ** The route table (lines 4-21) *)

Definition apiMapping : list (string * string) :=
  [ ("/mistral", "https://api.mistral.ai");
    ("/discord", "https://discord.com/api");
    ("/telegram", "https://api.telegram.org");
    ("/openai", "https://api.openai.com");
    ("/claude", "https://api.anthropic.com");
    ("/gemini", "https://generativelanguage.googleapis.com");
    ("/meta", "https://www.meta.ai/api");
    ("/groq", "https://api.groq.com/openai");
    ("/xai", "https://api.x.ai");
    ("/cohere", "https://api.cohere.ai");
    ("/huggingface", "https://api-inference.huggingface.co");
    ("/together", "https://api.together.xyz");
    ("/novita", "https://api.novita.ai");
    ("/portkey", "https://api.portkey.ai");
    ("/fireworks", "https://api.fireworks.ai");
    ("/openrouter", "https://openrouter.ai/api") ].

(** [Object.keys(o)]. *)
Definition Object_keys (o : list (string * string)) : list string :=
  map fst o.

(** [o[k]]: the value of the first own property named [k], [undefined]
    when there is none. *)
Fixpoint Object_get (o : list (string * string)) (k : string) : option string :=
  match o with
  | [] => None
  | (k', v) :: o' => if (k' =? k)%string then Some v else Object_get o' k
  end.

(** ** The router (lines 135-149) *)

Fixpoint extractPrefixAndRest (pathname : string) (prefixes : list string)
  : option string * option string :=
  match prefixes with
  | [] => (None, None)
  | prefix :: prefixes' =>
      if Str.startsWith pathname prefix then
        let rest := Str.slice (String.length prefix) pathname in
        if Nat.eqb (String.length rest) 0 || Str.startsWith rest "/"
        then (Some prefix, Some rest)
        else extractPrefixAndRest pathname prefixes'
      else extractPrefixAndRest pathname prefixes'
  end.

(** The specification's prefix match: the path is the prefix followed by
    a remainder that is empty or begins with a slash. *)
Definition PrefixMatch (path prefix : string) : Prop :=
  exists rest, path = prefix ++ rest /\ (rest = "" \/ exists t, rest = "/" ++ t).

(** The part of the loop body that decides whether [prefix] is taken. *)
Definition accepts (pathname prefix : string) : bool :=
  Str.startsWith pathname prefix &&
  let rest := Str.slice (String.length prefix) pathname in
  Nat.eqb (String.length rest) 0 || Str.startsWith rest "/".

(** ** The [Headers] class of the Fetch standard *)

Module Headers.

(** The header list: names as handed in, insertion order, repeats kept. *)
Definition t : Type := list (string * string).

(** Byte-lowercase of one code unit: [A]-[Z] move to [a]-[z]. *)
Definition lower_ascii (c : ascii) : ascii :=
  let n := N_of_ascii c in
  if (65 <=? n)%N && (n <=? 90)%N then ascii_of_N (n + 32) else c.

(** [s.toLowerCase()] on an ASCII string. *)
Fixpoint toLowerCase (s : string) : string :=
  match s with
  | EmptyString => EmptyString
  | String c s' => String (lower_ascii c) (toLowerCase s')
  end.

(** Two header names are one name when they agree up to case. *)
Definition name_eq (a b : string) : bool :=
  (toLowerCase a =? toLowerCase b)%string.

(** [new Headers()]. *)
Definition empty : t := [].

(** [h.has(name)]. *)
Definition has (h : t) (name : string) : bool :=
  existsb (fun e => name_eq (fst e) name) h.

(** The values stored under [name], in list order. *)
Definition values (h : t) (name : string) : list string :=
  map snd (filter (fun e => name_eq (fst e) name) h).

(** [h.get(name)]: the values of [name] joined by a comma and a space,
    [null] when the list has none. *)
Definition get (h : t) (name : string) : option string :=
  match values h name with
  | [] => None
  | vs => Some (String.concat ", " vs)
  end.

(** HTTP white space: tab, line feed, carriage return, space. *)
Definition isHttpWhitespace (c : ascii) : bool :=
  let n := N_of_ascii c in
  (n =? 9)%N || (n =? 10)%N || (n =? 13)%N || (n =? 32)%N.

Fixpoint trimStart (s : string) : string :=
  match s with
  | EmptyString => EmptyString
  | String c s' => if isHttpWhitespace c then trimStart s' else s
  end.

Fixpoint trimEnd (s : string) : string :=
  match s with
  | EmptyString => EmptyString
  | String c s' =>
      match trimEnd s' with
      | EmptyString => if isHttpWhitespace c then EmptyString else String c EmptyString
      | t' => String c t'
      end
  end.

(** The value as [set] and [append] store it: leading and trailing HTTP
    white space removed. *)
Definition normalize (value : string) : string := trimEnd (trimStart value).

(** A header added at the end of the list. *)
Definition push (h : t) (name value : string) : t :=
  (h ++ [(name, value)])%list.

(** [h.append(name, value)]. *)
Definition append (h : t) (name value : string) : t :=
  push h name (normalize value).

(** Overwrite the first header called [name], drop the later ones. *)
Fixpoint set_first (h : t) (name value : string) : t :=
  match h with
  | [] => []
  | (k, w) :: h' =>
      if name_eq k name
      then (k, value) :: filter (fun e => negb (name_eq (fst e) name)) h'
      else (k, w) :: set_first h' name value
  end.

(** [h.set(name, value)]. *)
Definition set (h : t) (name value : string) : t :=
  let value := normalize value in
  if has h name then set_first h name value else push h name value.

(** Insertion into a list of names in ascending code-unit order. *)
Fixpoint insert (x : string) (l : list string) : list string :=
  match l with
  | [] => [x]
  | y :: l' => if String.leb x y then x :: l else y :: insert x l'
  end.

Definition sort (l : list string) : list string := fold_right insert [] l.

(** The sorted lower-case set of the names of [h]. *)
Definition names (h : t) : list string :=
  sort (nodup string_dec (map (fun e => toLowerCase (fst e)) h)).

(** What iteration yields for one name of the sorted lower-case set: one
    entry with the combined value; [set-cookie] keeps one entry per
    value. *)
Definition entries_of (h : t) (name : string) : list (string * string) :=
  if (name =? "set-cookie")%string
  then map (pair name) (values h name)
  else [(name, String.concat ", " (values h name))].

(** [h.entries()]. *)
Definition entries (h : t) : list (string * string) :=
  flat_map (entries_of h) (names h).

(** [new Headers(init)]: every pair of [init] is appended; a [Headers]
    object given as [init] is read through its iterator, that is
    through [entries]. *)
Definition make (init : list (string * string)) : t :=
  fold_left (fun h e => append h (fst e) (snd e)) init empty.

End Headers.

(** ** Requests and responses *)

(** What a [ReadableStream] carries. *)
Definition Stream : Type := string.

Module URL.

(** The two components of [new URL(request.url)] the handler reads. *)
Record t : Type := { pathname : string; search : string }.

End URL.

Module Request.

Record t : Type :=
  { method : string;
    url : URL.t;
    headers : Headers.t;
    body : option Stream }.

End Request.

Module Response.

(** The body handed to the constructor: a string, or a stream or [null]. *)
Inductive BodyInit : Type :=
| Text (s : string)
| Piped (b : option Stream).

Record t : Type :=
  { status : Z;
    statusText : string;
    headers : Headers.t;
    body : BodyInit }.

(** [r.body]: the stream of the response, [null] when it has none. *)
Definition stream (r : t) : option Stream :=
  match body r with
  | Text s => Some s
  | Piped b => b
  end.

(** A status that goes with no body. *)
Definition nullBodyStatus (st : Z) : bool :=
  (st =? 101)%Z || (st =? 103)%Z || (st =? 204)%Z || (st =? 205)%Z || (st =? 304)%Z.

(** A code unit of a reason phrase: tab, space, a visible character or
    a byte from 128 on. *)
Definition reasonPhraseChar (c : ascii) : bool :=
  let n := N_of_ascii c in
  (n =? 9)%N || ((32 <=? n)%N && (n <=? 126)%N) || (128 <=? n)%N.

Fixpoint reasonPhrase (s : string) : bool :=
  match s with
  | EmptyString => true
  | String c s' => reasonPhraseChar c && reasonPhrase s'
  end.

Definition hasBody (b : BodyInit) : bool :=
  match b with
  | Text _ => true
  | Piped (Some _) => true
  | Piped None => false
  end.

(** The checks of [new Response(body, { status, statusText, ... })]: it
    throws a [RangeError] for a status outside 200-599 and a
    [TypeError] for a status text that is no reason phrase or for a body
    given with a null body status. *)
Definition accepts (b : BodyInit) (st : Z) (stText : string) : bool :=
  ((200 <=? st)%Z && (st <=? 599)%Z)
  && reasonPhrase stText
  && negb (hasBody b && nullBodyStatus st).

(** The response [new Response(body, { status, statusText, headers })]
    builds when its checks pass.  The header list is filled from
    [headers]; a string body brings its own [Content-Type] when the list
    has none. *)
Definition make (b : BodyInit) (st : Z) (stText : string)
                (init : list (string * string)) : t :=
  let hs := Headers.make init in
  let hs :=
    match b with
    | Text _ =>
        if Headers.has hs "Content-Type" then hs
        else Headers.append hs "content-type" "text/plain;charset=UTF-8"
    | Piped _ => hs
    end in
  {| status := st; statusText := stText; headers := hs; body := b |}.

(** [new Response(...)] with its checks: [None] when it throws. *)
Definition construct (b : BodyInit) (st : Z) (stText : string)
                     (init : list (string * string)) : option t :=
  if accepts b st stText then Some (make b st stText init) else None.

End Response.

(** The second argument of [fetch]. *)
Record FetchInit : Type :=
  { fetch_method : string;
    fetch_headers : Headers.t;
    fetch_body : option Stream }.

(** How the awaited [fetch] ends. *)
Inductive Outcome : Type :=
| Resolved (response : Response.t)
| Thrown.

(** One run of the handler: a response at once, or one outbound call and
    the response made from its outcome. *)
Inductive Action : Type :=
| Respond (r : Response.t)
| Fetch (targetUrl : string) (init : FetchInit) (k : Outcome -> Response.t).

(** ** The header filter (lines 62-90) *)

Definition allowedHeaders : list string :=
  [ "accept"; "content-type"; "authorization"; "x-goog-api-key" ].

(** [l.includes(x)]. *)
Definition includes (l : list string) (x : string) : bool :=
  existsb (String.eqb x) l.

(** The test of the loop on one entry. *)
Definition allowed (entry : string * string) : bool :=
  includes allowedHeaders (Headers.toLowerCase (fst entry)).

(** The body of the loop over [request.headers.entries()]. *)
Definition copyAllowed (headers : Headers.t) (entry : string * string) : Headers.t :=
  let '(key, value) := entry in
  let lowerKey := Headers.toLowerCase key in
  if includes allowedHeaders lowerKey
  then Headers.set headers key value
  else headers.

Definition forwardHeaders (requestHeaders : Headers.t) : Headers.t :=
  let headers := Headers.empty in
  let headers := fold_left copyAllowed (Headers.entries requestHeaders) headers in
  if Headers.has requestHeaders "user-agent"
  then Headers.set headers "User-Agent"
         (Str.template "null" (Headers.get requestHeaders "user-agent"))
  else headers.

(** ** The response relay (lines 107-121) *)

(** The rest of the [try] block after the awaited [fetch]: [None] when
    the constructor of the relayed response throws. *)
Definition relay (response : Response.t) : option Response.t :=
  let responseHeaders := Headers.make (Headers.entries (Response.headers response)) in
  let responseHeaders := Headers.set responseHeaders "X-Content-Type-Options" "nosniff" in
  let responseHeaders := Headers.set responseHeaders "X-Frame-Options" "DENY" in
  let responseHeaders := Headers.set responseHeaders "Referrer-Policy" "no-referrer" in
  Response.construct (Response.Piped (Response.stream response))
                     (Response.status response)
                     (Response.statusText response)
                     (Headers.entries responseHeaders).

(** The [catch] clause (lines 123-126). *)
Definition caught : Response.t :=
  Response.make (Response.Text "Internal Server Error") 500 "" [].

(** What follows the awaited [fetch] (lines 104-126): the relay when the
    call resolved and nothing in the [try] block throws, the [catch]
    clause when the call or the constructor of the relay threw. *)
Definition settle (outcome : Outcome) : Response.t :=
  match outcome with
  | Resolved response =>
      match relay response with
      | Some relayed => relayed
      | None => caught
      end
  | Thrown => caught
  end.

(** ** The request handler (lines 25-127) *)

Section Handler.

(** The router is a parameter of the handler, so that a branch that does
    not consult it can be stated as such. *)
Variable router : string -> list string -> option string * option string.

Definition handle (request : Request.t) : Action :=
  let pathname := URL.pathname (Request.url request) in
  let search := URL.search (Request.url request) in
  if (pathname =? "/") || (pathname =? "/index.html") then
    Respond (Response.make (Response.Text "Service is running!") 200 ""
               [("Content-Type", "text/html; charset=utf-8")])
  else if pathname =? "/robots.txt" then
    Respond (Response.make
               (Response.Text ("User-agent: *" ++ String "010" "Disallow: /")) 200 ""
               [("Content-Type", "text/plain; charset=utf-8")])
  else
    let '(prefix, rest) := router pathname (Object_keys apiMapping) in
    if negb (Str.truthy prefix) then
      Respond (Response.make (Response.Text "Not Found") 404 "" [])
    else
      let targetUrl :=
        Str.template "undefined" (Object_get apiMapping (Str.template "null" prefix))
        ++ Str.template "null" rest ++ search in
      Fetch targetUrl
        {| fetch_method := Request.method request;
           fetch_headers := forwardHeaders (Request.headers request);
           fetch_body := Request.body request |}
        settle.

End Handler.

(** The handler as the program runs it. *)
Definition serve : Request.t -> Action := handle extractPrefixAndRest.

(** Running an [Action] against the outside world: [fetch] says how the
    outbound call to a target ends. *)
Definition run (fetch : string -> FetchInit -> Outcome) (a : Action) : Response.t :=
  match a with
  | Respond r => r
  | Fetch targetUrl init k => k (fetch targetUrl init)
  end.

(** The outbound calls one run of the handler issues. *)
Definition calls_of (a : Action) : list (string * FetchInit) :=
  match a with
  | Respond _ => []
  | Fetch targetUrl init _ => [(targetUrl, init)]
  end.

(** The target of the outbound call, when there is one. *)
Definition targetUrl_of (a : Action) : option string :=
  match a with
  | Respond _ => None
  | Fetch targetUrl _ _ => Some targetUrl
  end.

(** The three defensive headers, read off a response. *)
Definition secured (r : Response.t) : Prop :=
  Headers.get (Response.headers r) "X-Content-Type-Options" = Some "nosniff"
  /\ Headers.get (Response.headers r) "X-Frame-Options" = Some "DENY"
  /\ Headers.get (Response.headers r) "Referrer-Policy" = Some "no-referrer".

(** ** Sample requests *)

Definition request_of (method pathname search : string) (headers : Headers.t) : Request.t :=
  {| Request.method := method;
     Request.url := {| URL.pathname := pathname; URL.search := search |};
     Request.headers := headers;
     Request.body := None |}.

Definition created : Response.t :=
  {| Response.status := 201;
     Response.statusText := "Created";
     Response.headers := [("Content-Type", "application/json")];
     Response.body := Response.Piped (Some "{}") |}.

(** An upstream answer with a status no [Response] can be built with. *)
Definition denied : Response.t :=
  {| Response.status := 999;
     Response.statusText := "Request denied";
     Response.headers := [("Content-Type", "text/html")];
     Response.body := Response.Piped (Some "no") |}.

(** An upstream answer that repeats a header, the last time empty. *)
Definition varied : Response.t :=
  {| Response.status := 200;
     Response.statusText := "OK";
     Response.headers := [("Vary", "Accept"); ("Vary", "")];
     Response.body := Response.Piped (Some "{}") |}.

(** ** The header filter with its console output (lines 62-90) *)

(** What line 80 prints in place of a value: three stars when the value
    begins with [sk-] or [AIza], the value itself otherwise. *)
Definition shown (value : string) : string :=
  if Str.startsWith value "sk-" || Str.startsWith value "AIza"
  then "***"
  else value.

(** The body of the loop, with the lines it writes to the console. *)
Definition copyAllowedLogged (state : Headers.t * list string)
                             (entry : string * string) : Headers.t * list string :=
  let '(headers, console) := state in
  let '(key, value) := entry in
  let lowerKey := Headers.toLowerCase key in
  if includes allowedHeaders lowerKey
  then (Headers.set headers key value,
        List.app console ["Forwarding header: " ++ key ++ ": " ++ shown value])
  else (headers, console).

(** Lines 62-90 as they run: the outbound header set and the console
    lines of the loop and of the [User-Agent] step. *)
Definition forwardHeadersLogged (requestHeaders : Headers.t)
  : Headers.t * list string :=
  let '(headers, console) :=
    fold_left copyAllowedLogged (Headers.entries requestHeaders) (Headers.empty, []) in
  if Headers.has requestHeaders "user-agent"
  then (Headers.set headers "User-Agent"
          (Str.template "null" (Headers.get requestHeaders "user-agent")),
        List.app console
          ["Forwarding User-Agent: "
           ++ Str.template "null" (Headers.get requestHeaders "user-agent")])
  else (headers, console).

(** ** The program on sample inputs *)

Example route_exact :
  extractPrefixAndRest "/openai" (Object_keys apiMapping) = (Some "/openai", Some "").
Proof. reflexivity. Qed.

Example route_segment :
  extractPrefixAndRest "/openai/v1/models" (Object_keys apiMapping)
  = (Some "/openai", Some "/v1/models").
Proof. reflexivity. Qed.

Example route_no_boundary :
  extractPrefixAndRest "/gemini-pro" (Object_keys apiMapping) = (None, None).
Proof. reflexivity. Qed.

Example entries_sorted_combined :
  Headers.entries
    [("Set-Cookie", "a=1"); ("Host", "foo"); ("set-cookie", "b=2");
     ("Accept", "text/html"); ("accept", "*/*")]
  = [("accept", "text/html, */*"); ("host", "foo");
     ("set-cookie", "a=1"); ("set-cookie", "b=2")].
Proof. reflexivity. Qed.

Example filter_sample :
  forwardHeaders
    [("Cookie", "a=b"); ("Authorization", "Bearer X"); ("Host", "foo");
     ("user-agent", "curl/8")]
  = [("authorization", "Bearer X"); ("User-Agent", "curl/8")].
Proof. reflexivity. Qed.

Example robots_body :
  String.get 13 ("User-agent: *" ++ String "010" "Disallow: /") = Some (ascii_of_nat 10).
Proof. reflexivity. Qed.

Example relay_created :
  run (fun _ _ => Resolved created) (serve (request_of "GET" "/openai/v1/models" "" []))
  = {| Response.status := 201;
       Response.statusText := "Created";
       Response.headers :=
         [("content-type", "application/json");
          ("referrer-policy", "no-referrer");
          ("x-content-type-options", "nosniff");
          ("x-frame-options", "DENY")];
       Response.body := Response.Piped (Some "{}") |}.
Proof. reflexivity. Qed.

Example set_trims :
  Headers.set Headers.empty "accept" (String.concat ", " ["a"; ""]) = [("accept", "a,")].
Proof. reflexivity. Qed.

Example normalize_both_ends :
  Headers.normalize (String "009" " text/plain ; q=1 " ++ String "013" (String "010" ""))
  = "text/plain ; q=1".
Proof. reflexivity. Qed.

Example relay_refused_999 : relay denied = None.
Proof. reflexivity. Qed.

Example no_content_relayed :
  option_map Response.status
    (relay {| Response.status := 204;
              Response.statusText := "No Content";
              Response.headers := [];
              Response.body := Response.Piped None |})
  = Some 204%Z.
Proof. reflexivity. Qed.

(** The four [new Response] calls with literal arguments pass the checks
    of the constructor. *)
Example literal_calls_accepted :
  Response.accepts (Response.Text "Service is running!") 200 "" = true
  /\ Response.accepts (Response.Text ("User-agent: *" ++ String "010" "Disallow: /")) 200 ""
     = true
  /\ Response.accepts (Response.Text "Not Found") 404 "" = true
  /\ Response.accepts (Response.Text "Internal Server Error") 500 "" = true.
Proof. repeat split. Qed.

(** ** Facts about strings *)

Section StringFacts.

Lemma startsWith_app (p r : string) : Str.startsWith (p ++ r) p = true.
Proof.
  induction p as [|c p IH]; simpl; [reflexivity|].
  now rewrite Ascii.eqb_refl.
Qed.

Lemma slice_app (p r : string) : Str.slice (String.length p) (p ++ r) = r.
Proof. induction p as [|c p IH]; simpl; [reflexivity | exact IH]. Qed.

Lemma startsWith_split (s p : string) :
  Str.startsWith s p = true -> s = p ++ Str.slice (String.length p) s.
Proof.
  revert s. induction p as [|c p IH]; intros s; simpl; [reflexivity|].
  destruct s as [|d s]; [discriminate|].
  rewrite andb_true_iff, Ascii.eqb_eq. intros [-> H].
  f_equal. now apply IH.
Qed.

Lemma length_zero (s : string) : Nat.eqb (String.length s) 0 = true <-> s = "".
Proof.
  destruct s; simpl; split; intros H; try reflexivity; discriminate.
Qed.

Lemma startsWith_slash (s : string) :
  Str.startsWith s "/" = true <-> exists t, s = "/" ++ t.
Proof.
  split.
  - intros H. apply startsWith_split in H. eauto.
  - intros [t ->]. apply startsWith_app.
Qed.

Lemma boundary_ok (r : string) :
  Nat.eqb (String.length r) 0 || Str.startsWith r "/" = true
  <-> (r = "" \/ exists t, r = "/" ++ t).
Proof.
  rewrite orb_true_iff, length_zero, startsWith_slash. reflexivity.
Qed.

Lemma accepts_spec (path prefix : string) :
  accepts path prefix = true <-> PrefixMatch path prefix.
Proof.
  unfold accepts, PrefixMatch. rewrite andb_true_iff. split.
  - intros [Hp Hb]. exists (Str.slice (String.length prefix) path).
    split; [now apply startsWith_split | now apply boundary_ok].
  - intros [r [-> Hr]]. rewrite startsWith_app, slice_app.
    split; [reflexivity | now apply boundary_ok].
Qed.

Lemma accepts_dash (prefix suffix : string) :
  accepts (prefix ++ "-" ++ suffix) prefix = false.
Proof.
  unfold accepts. rewrite startsWith_app, slice_app. reflexivity.
Qed.

End StringFacts.

(** ** Facts about the router *)

Section RouterFacts.

Lemma extract_cons (path prefix : string) (ps : list string) :
  extractPrefixAndRest path (prefix :: ps)
  = if accepts path prefix
    then (Some prefix, Some (Str.slice (String.length prefix) path))
    else extractPrefixAndRest path ps.
Proof.
  unfold accepts. simpl.
  destruct (Str.startsWith path prefix); simpl; [|reflexivity].
  now destruct (Nat.eqb (String.length (Str.slice (String.length prefix) path)) 0
              || Str.startsWith (Str.slice (String.length prefix) path) "/").
Qed.

Lemma extract_none (path : string) (ps : list string) :
  extractPrefixAndRest path ps = (None, None)
  <-> Forall (fun q => accepts path q = false) ps.
Proof.
  induction ps as [|q ps IH].
  - simpl. split; intros; [constructor | reflexivity].
  - rewrite extract_cons. destruct (accepts path q) eqn:E.
    + split; [discriminate | intros H; inversion H; congruence].
    + rewrite IH. split; intros H.
      * now constructor.
      * now inversion H.
Qed.

Lemma extract_some (path : string) (ps : list string) (p r : string) :
  extractPrefixAndRest path ps = (Some p, Some r)
  <-> exists before after,
        ps = (before ++ p :: after)%list
        /\ Forall (fun q => accepts path q = false) before
        /\ accepts path p = true
        /\ r = Str.slice (String.length p) path.
Proof.
  induction ps as [|q ps IH].
  - simpl. split; [discriminate|].
    intros (b & a & H & _). now destruct b.
  - rewrite extract_cons. destruct (accepts path q) eqn:E.
    + split.
      * intros H. injection H as <- <-. exists [], ps. now repeat split.
      * intros (b & a & H & Hb & Hp & ->).
        destruct b as [|q' b]; simpl in H; injection H as -> ->.
        -- reflexivity.
        -- inversion Hb; congruence.
    + rewrite IH. split.
      * intros (b & a & -> & Hb & Hp & ->).
        exists (q :: b), a. repeat split; auto.
      * intros (b & a & H & Hb & Hp & ->).
        destruct b as [|q' b]; simpl in H; injection H as -> ->.
        -- congruence.
        -- exists b, a. inversion Hb; subst. now repeat split.
Qed.

Lemma extract_shape (path : string) (ps : list string) :
  (exists p r, extractPrefixAndRest path ps = (Some p, Some r))
  \/ extractPrefixAndRest path ps = (None, None).
Proof.
  induction ps as [|q ps IH]; [now right|].
  rewrite extract_cons. destruct (accepts path q); [left; eauto | exact IH].
Qed.

End RouterFacts.

(** ** Facts about [Headers] *)

Section HeadersFacts.

Import Headers.

Lemma lower_ascii_idem (c : ascii) : lower_ascii (lower_ascii c) = lower_ascii c.
Proof. destruct c as [[] [] [] [] [] [] [] []]; reflexivity. Qed.

Lemma toLowerCase_idem (s : string) : toLowerCase (toLowerCase s) = toLowerCase s.
Proof.
  induction s as [|c s IH]; simpl; [reflexivity|].
  now rewrite lower_ascii_idem, IH.
Qed.

Lemma name_eq_refl (a : string) : name_eq a a = true.
Proof. apply String.eqb_refl. Qed.

Lemma name_eq_sym (a b : string) : name_eq a b = name_eq b a.
Proof. apply String.eqb_sym. Qed.

Lemma name_eq_true (a b : string) :
  name_eq a b = true <-> toLowerCase a = toLowerCase b.
Proof. apply String.eqb_eq. Qed.

Lemma name_eq_lower (a b : string) : name_eq (toLowerCase a) b = name_eq a b.
Proof. unfold name_eq. now rewrite toLowerCase_idem. Qed.

Lemma name_eq_trans_l (a b c : string) :
  name_eq a b = true -> name_eq a c = name_eq b c.
Proof. unfold name_eq. intros H%String.eqb_eq. now rewrite H. Qed.

Lemma values_congr (h : t) (a b : string) :
  name_eq a b = true -> values h a = values h b.
Proof.
  intros H. unfold values. f_equal. apply filter_ext. intros e.
  rewrite (name_eq_sym _ a), (name_eq_sym _ b). now apply name_eq_trans_l.
Qed.

Lemma get_congr (h : t) (a b : string) :
  name_eq a b = true -> get h a = get h b.
Proof. intros H. unfold get. now rewrite (values_congr h a b H). Qed.

Lemma has_values (h : t) (n : string) : has h n = negb (Nat.eqb (List.length (values h n)) 0).
Proof.
  unfold has, values. induction h as [|[k w] h IH]; simpl; [reflexivity|].
  destruct (name_eq k n); simpl; [reflexivity | exact IH].
Qed.

Lemma has_get (h : t) (n : string) :
  get h n = if has h n then Some (String.concat ", " (values h n)) else None.
Proof.
  rewrite has_values. unfold get. now destruct (values h n).
Qed.

Lemma values_app (h1 h2 : t) (n : string) :
  values (h1 ++ h2)%list n = (values h1 n ++ values h2 n)%list.
Proof. unfold values. now rewrite filter_app, map_app. Qed.

Lemma values_set_first_other (h : t) (k v n : string) :
  name_eq k n = false -> values (set_first h k v) n = values h n.
Proof.
  intros Hkn. unfold values. induction h as [|[k' w] h IH]; simpl; [reflexivity|].
  destruct (name_eq k' k) eqn:E; simpl.
  - rewrite (name_eq_trans_l _ _ n E), Hkn. f_equal.
    clear IH. induction h as [|[k2 w2] h IH]; simpl; [reflexivity|].
    destruct (name_eq k2 k) eqn:E2; simpl.
    + now rewrite (name_eq_trans_l _ _ n E2), Hkn.
    + destruct (name_eq k2 n); simpl; now rewrite IH.
  - destruct (name_eq k' n); simpl; now rewrite IH.
Qed.

Lemma values_drop (h : t) (k : string) :
  values (filter (fun e => negb (name_eq (fst e) k)) h) k = [].
Proof.
  unfold values. induction h as [|[k' w] h IH]; simpl; [reflexivity|].
  destruct (name_eq k' k) eqn:E; simpl; [exact IH | now rewrite E].
Qed.

Lemma values_set_first_same (h : t) (k v : string) :
  has h k = true -> values (set_first h k v) k = [v].
Proof.
  unfold has. induction h as [|[k' w] h IH]; simpl; [discriminate|].
  destruct (name_eq k' k) eqn:E; simpl.
  - intros _. unfold values at 1. simpl. rewrite E. simpl. f_equal.
    apply values_drop.
  - intros H. unfold values at 1. simpl. rewrite E. now apply IH.
Qed.

Lemma values_set (h : t) (k v n : string) :
  values (set h k v) n = if name_eq k n then [normalize v] else values h n.
Proof.
  unfold set. destruct (name_eq k n) eqn:E.
  - rewrite <- (values_congr _ k n E).
    destruct (has h k) eqn:Hh; [now apply values_set_first_same|].
    unfold push. rewrite values_app.
    rewrite has_values in Hh. destruct (values h k); [|discriminate].
    unfold values. simpl. now rewrite name_eq_refl.
  - destruct (has h k); [now apply values_set_first_other|].
    unfold push. rewrite values_app. unfold values at 2. simpl.
    rewrite E. simpl. apply app_nil_r.
Qed.

Lemma get_set (h : t) (k v n : string) :
  get (set h k v) n = if name_eq k n then Some (normalize v) else get h n.
Proof. unfold get. rewrite values_set. now destruct (name_eq k n). Qed.

Lemma make_map (init : list (string * string)) :
  make init = map (fun e => (fst e, normalize (snd e))) init.
Proof.
  unfold make, empty.
  rewrite <- (app_nil_l (map _ init)).
  generalize (@nil (string * string)) as acc.
  induction init as [|[k v] init IH]; intros acc; simpl.
  - now rewrite app_nil_r.
  - rewrite IH. unfold append, push. now rewrite <- app_assoc.
Qed.

Lemma values_normalized (l : t) (n : string) :
  values (map (fun e => (fst e, normalize (snd e))) l) n = map normalize (values l n).
Proof.
  unfold values. induction l as [|[k v] l IH]; simpl; [reflexivity|].
  destruct (name_eq k n); simpl; now rewrite IH.
Qed.

Lemma has_normalized (l : t) (n : string) :
  has (map (fun e => (fst e, normalize (snd e))) l) n = has l n.
Proof. now rewrite !has_values, values_normalized, length_map. Qed.

Lemma trimStart_clean (s : string) :
  match trimStart s with
  | EmptyString => True
  | String c _ => isHttpWhitespace c = false
  end.
Proof.
  induction s as [|c s IH]; simpl; [exact I|].
  destruct (isHttpWhitespace c) eqn:E; [exact IH | exact E].
Qed.

Lemma trimEnd_idem (s : string) : trimEnd (trimEnd s) = trimEnd s.
Proof.
  induction s as [|c s IH]; simpl; [reflexivity|].
  destruct (trimEnd s) as [|d t] eqn:E.
  - destruct (isHttpWhitespace c) eqn:W; simpl; [reflexivity | now rewrite W].
  - change (trimEnd (String c (String d t)))
      with (match trimEnd (String d t) with
            | EmptyString =>
                if isHttpWhitespace c then EmptyString else String c EmptyString
            | String e t' => String c (String e t')
            end).
    now rewrite IH.
Qed.

Lemma trimEnd_head (c : ascii) (s : string) :
  isHttpWhitespace c = false ->
  exists t, trimEnd (String c s) = String c t.
Proof.
  intros W. simpl. destruct (trimEnd s); [rewrite W|]; eauto.
Qed.

Lemma normalize_idem (v : string) : normalize (normalize v) = normalize v.
Proof.
  unfold normalize. pose proof (trimStart_clean v) as Hc.
  destruct (trimStart v) as [|c s]; [reflexivity|].
  destruct (trimEnd_head c s Hc) as [t Ht]. rewrite Ht.
  cbn [trimStart]. rewrite Hc, <- Ht. apply trimEnd_idem.
Qed.

Lemma insert_perm (x : string) (l : list string) : Permutation (insert x l) (x :: l).
Proof.
  induction l as [|y l IH]; simpl; [reflexivity|].
  destruct (String.leb x y); [reflexivity|].
  rewrite IH. apply perm_swap.
Qed.

Lemma sort_perm (l : list string) : Permutation (sort l) l.
Proof.
  induction l as [|x l IH]; simpl; [reflexivity|].
  rewrite insert_perm. now constructor.
Qed.

Lemma names_NoDup (h : t) : NoDup (names h).
Proof.
  unfold names. eapply Permutation_NoDup.
  - symmetry. apply sort_perm.
  - apply NoDup_nodup.
Qed.

Lemma names_In (h : t) (m : string) :
  In m (names h) <-> exists e, In e h /\ toLowerCase (fst e) = m.
Proof.
  unfold names. split.
  - intros H. apply (Permutation_in _ (sort_perm _)) in H.
    apply nodup_In, in_map_iff in H. destruct H as [e [He Hin]]. eauto.
  - intros [e [Hin He]]. apply (Permutation_in _ (Permutation_sym (sort_perm _))).
    apply nodup_In, in_map_iff. eauto.
Qed.

Lemma names_lower (h : t) (m : string) : In m (names h) -> toLowerCase m = m.
Proof.
  intros [e [_ <-]]%names_In. apply toLowerCase_idem.
Qed.

Lemma names_has (h : t) (n : string) :
  In (toLowerCase n) (names h) <-> has h n = true.
Proof.
  rewrite names_In. unfold has. rewrite existsb_exists.
  split; intros [e [Hin He]]; exists e; split; auto;
    now apply name_eq_true.
Qed.

Lemma values_flat_map (A : Type) (f : A -> t) (l : list A) (n : string) :
  values (flat_map f l) n = flat_map (fun a => values (f a) n) l.
Proof.
  induction l as [|a l IH]; simpl; [reflexivity|].
  now rewrite values_app, IH.
Qed.

Lemma values_entries_of (h : t) (m n : string) :
  values (entries_of h m) n
  = if name_eq m n
    then if (m =? "set-cookie")%string
         then values h m
         else [String.concat ", " (values h m)]
    else [].
Proof.
  unfold entries_of. destruct (m =? "set-cookie")%string.
  - unfold values at 1. induction (values h m) as [|v vs IH]; simpl.
    + now destruct (name_eq m n).
    + destruct (name_eq m n); simpl in *; [now rewrite IH | exact IH].
  - unfold values at 1. simpl. now destruct (name_eq m n).
Qed.

Lemma flat_map_select (A : Type) (f : string -> list A) (x : string) (l : list string) :
  NoDup l ->
  flat_map (fun m => if (m =? x)%string then f m else []) l
  = if in_dec string_dec x l then f x else [].
Proof.
  induction 1 as [|y l Hy Hl IH]; simpl; [reflexivity|].
  rewrite IH. destruct (String.eqb_spec y x) as [->|Hne].
  - destruct (string_dec x x) as [_|]; [|congruence].
    destruct (in_dec string_dec x l); [contradiction | apply app_nil_r].
  - destruct (string_dec y x); [contradiction|].
    now destruct (in_dec string_dec x l).
Qed.

Lemma flat_map_ext_in (A B : Type) (f g : A -> list B) (l : list A) :
  (forall a, In a l -> f a = g a) -> flat_map f l = flat_map g l.
Proof.
  induction l as [|a l IH]; intros H; simpl; [reflexivity|].
  rewrite (H a (or_introl eq_refl)), IH; [reflexivity|].
  intros b Hb. apply H. now right.
Qed.

Lemma values_entries (h : t) (n : string) :
  values (entries h) n
  = if has h n
    then if (toLowerCase n =? "set-cookie")%string
         then values h n
         else [String.concat ", " (values h n)]
    else [].
Proof.
  unfold entries. rewrite values_flat_map.
  rewrite (flat_map_ext_in _ _ _
             (fun m => if (m =? toLowerCase n)%string
                       then if (m =? "set-cookie")%string
                            then values h m
                            else [String.concat ", " (values h m)]
                       else [])).
  - rewrite flat_map_select by apply names_NoDup.
    rewrite (values_congr h (toLowerCase n) n)
      by (rewrite name_eq_lower; apply name_eq_refl).
    destruct (in_dec string_dec (toLowerCase n) (names h)) as [Hin|Hin].
    + apply names_has in Hin. now rewrite Hin.
    + destruct (has h n) eqn:Hh; [|reflexivity].
      apply names_has in Hh. contradiction.
  - intros m Hm. rewrite values_entries_of. unfold name_eq.
    now rewrite (names_lower h m Hm).
Qed.

Lemma get_entries (h : t) (n : string) : get (entries h) n = get h n.
Proof.
  rewrite (has_get h n). unfold get at 1. rewrite values_entries.
  destruct (has h n) eqn:Hh; [|reflexivity].
  destruct (toLowerCase n =? "set-cookie")%string; [|reflexivity].
  rewrite has_values in Hh. now destruct (values h n).
Qed.

End HeadersFacts.

(** ** Facts about the header filter *)

Section FilterFacts.

Import Headers.

Lemma values_cons (e : string * string) (l : t) (n : string) :
  values (e :: l) n = if name_eq (fst e) n then snd e :: values l n else values l n.
Proof. unfold values. simpl. now destruct (name_eq (fst e) n). Qed.

Lemma values_copyAllowed (acc : t) (e : string * string) (n : string) :
  values (copyAllowed acc e) n
  = if allowed e && name_eq (fst e) n then [normalize (snd e)] else values acc n.
Proof.
  unfold copyAllowed, allowed. destruct e as [k v]; cbn [fst snd].
  destruct (includes allowedHeaders (toLowerCase k)); cbn [andb]; [|reflexivity].
  apply values_set.
Qed.

Lemma values_fold_copyAllowed (l : list (string * string)) (acc : t) (n : string) :
  values (fold_left copyAllowed l acc) n
  = match values (filter allowed l) n with
    | [] => values acc n
    | vs => [normalize (last vs "")]
    end.
Proof.
  revert acc. induction l as [|e l IH]; intros acc; cbn [fold_left filter].
  - now destruct (values acc n).
  - rewrite IH, values_copyAllowed.
    destruct (allowed e); cbn [andb]; [|reflexivity].
    rewrite values_cons.
    destruct (name_eq (fst e) n); [|reflexivity].
    now destruct (values (filter allowed l) n).
Qed.

Lemma values_filter_allowed (l : t) (n : string) :
  values (filter allowed l) n
  = if includes allowedHeaders (toLowerCase n) then values l n else [].
Proof.
  induction l as [|e l IH]; cbn [filter].
  - now destruct (includes allowedHeaders (toLowerCase n)).
  - rewrite (values_cons e l). destruct (name_eq (fst e) n) eqn:E.
    + unfold allowed at 1. apply name_eq_true in E as E'. rewrite E'.
      destruct (includes allowedHeaders (toLowerCase n)) eqn:A.
      * rewrite values_cons, E, IH. reflexivity.
      * exact IH.
    + destruct (allowed e); [rewrite values_cons, E|]; exact IH.
Qed.

Lemma allowed_not_set_cookie (n : string) :
  includes allowedHeaders (toLowerCase n) = true ->
  (toLowerCase n =? "set-cookie") = false.
Proof.
  intros H. destruct (String.eqb_spec (toLowerCase n) "set-cookie") as [E|]; [|reflexivity].
  rewrite E in H. discriminate H.
Qed.

Lemma values_scan (h : t) (n : string) :
  values (fold_left copyAllowed (entries h) empty) n
  = if includes allowedHeaders (toLowerCase n) && has h n
    then [normalize (String.concat ", " (values h n))]
    else [].
Proof.
  rewrite values_fold_copyAllowed, values_filter_allowed.
  destruct (includes allowedHeaders (toLowerCase n)) eqn:A; [|reflexivity].
  rewrite values_entries, (allowed_not_set_cookie n A).
  now destruct (has h n).
Qed.

Lemma values_forwardHeaders (h : t) (n : string) :
  values (forwardHeaders h) n
  = if (includes allowedHeaders (toLowerCase n) || (toLowerCase n =? "user-agent"))
       && has h n
    then [normalize (String.concat ", " (values h n))]
    else [].
Proof.
  unfold forwardHeaders.
  destruct (toLowerCase n =? "user-agent") eqn:U.
  - assert (Hn : name_eq "User-Agent" n = true).
    { unfold name_eq. apply String.eqb_eq in U. rewrite U. reflexivity. }
    assert (Hu : name_eq "user-agent" n = true).
    { unfold name_eq. apply String.eqb_eq in U. rewrite U. reflexivity. }
    assert (Hh : has h n = has h "user-agent").
    { now rewrite !has_values, (values_congr h _ _ Hu). }
    rewrite orb_true_r, Hh. cbn [andb].
    destruct (has h "user-agent") eqn:Hua.
    + rewrite values_set, Hn, (has_get h "user-agent"), Hua.
      cbn [Str.template]. now rewrite (values_congr h _ _ Hu).
    + rewrite values_scan, Hh. now rewrite andb_false_r.
  - assert (Hn : name_eq "User-Agent" n = false).
    { unfold name_eq. rewrite String.eqb_sym. exact U. }
    rewrite orb_false_r.
    destruct (has h "user-agent"); [rewrite values_set, Hn|]; apply values_scan.
Qed.

Lemma get_forwardHeaders (h : t) (n : string) :
  get (forwardHeaders h) n
  = if includes allowedHeaders (toLowerCase n) || (toLowerCase n =? "user-agent")
    then option_map normalize (get h n)
    else None.
Proof.
  unfold get at 1. rewrite values_forwardHeaders, (has_get h n).
  destruct (includes allowedHeaders (toLowerCase n) || (toLowerCase n =? "user-agent"));
    [|reflexivity].
  now destruct (has h n).
Qed.

End FilterFacts.

(** ** Facts about the handler *)

Section HandlerFacts.

Lemma route_hit (prefix base rest : string) :
  In (prefix, base) apiMapping ->
  (rest = "" \/ exists x, rest = "/" ++ x) ->
  extractPrefixAndRest (prefix ++ rest) (Object_keys apiMapping)
  = (Some prefix, Some rest)
  /\ Object_get apiMapping prefix = Some base
  /\ Str.truthy (Some prefix) = true
  /\ (prefix ++ rest =? "/") = false
  /\ (prefix ++ rest =? "/index.html") = false
  /\ (prefix ++ rest =? "/robots.txt") = false.
Proof.
  intros Hin Hrest. simpl in Hin.
  repeat (destruct Hin as [Hin|Hin];
          [injection Hin as <- <-;
           destruct Hrest as [-> | [x ->]]; repeat split; reflexivity|]).
  contradiction.
Qed.

Lemma handle_fetch (router : string -> list string -> option string * option string)
      (request : Request.t) (targetUrl : string) (init : FetchInit)
      (k : Outcome -> Response.t) :
  handle router request = Fetch targetUrl init k -> k = settle.
Proof.
  unfold handle.
  destruct (_ || _); [discriminate|].
  destruct (_ =? _); [discriminate|].
  destruct (router _ _) as [prefix rest].
  destruct (negb _); [discriminate|].
  intros H. now injection H.
Qed.

Lemma handle_miss (request : Request.t) :
  let pathname := URL.pathname (Request.url request) in
  pathname <> "/" -> pathname <> "/index.html" -> pathname <> "/robots.txt" ->
  extractPrefixAndRest pathname (Object_keys apiMapping) = (None, None) ->
  serve request = Respond (Response.make (Response.Text "Not Found") 404 "" []).
Proof.
  intros pathname H1 H2 H3 Hr. unfold serve, handle. fold pathname.
  apply String.eqb_neq in H1, H2, H3. rewrite H1, H2, H3, Hr. reflexivity.
Qed.

Lemma relay_eq (response : Response.t) :
  relay response
  = if Response.accepts (Response.Piped (Response.stream response))
         (Response.status response) (Response.statusText response)
    then Some (Response.make (Response.Piped (Response.stream response))
                 (Response.status response) (Response.statusText response)
                 (Headers.entries
                    (Headers.set
                       (Headers.set
                          (Headers.set
                             (Headers.make (Headers.entries (Response.headers response)))
                             "X-Content-Type-Options" "nosniff")
                          "X-Frame-Options" "DENY")
                       "Referrer-Policy" "no-referrer")))
    else None.
Proof. reflexivity. Qed.

Lemma relay_fields (response r : Response.t) :
  relay response = Some r ->
  Response.accepts (Response.Piped (Response.stream response))
    (Response.status response) (Response.statusText response) = true
  /\ Response.status r = Response.status response
  /\ Response.statusText r = Response.statusText response
  /\ Response.body r = Response.Piped (Response.stream response).
Proof.
  rewrite relay_eq. destruct (Response.accepts _ _ _); [|discriminate].
  intros H. injection H as <-. repeat split.
Qed.

Lemma relay_accepted (response : Response.t) :
  Response.accepts (Response.Piped (Response.stream response))
    (Response.status response) (Response.statusText response) = true ->
  exists r, relay response = Some r.
Proof. intros H. rewrite relay_eq, H. eauto. Qed.

Lemma relay_refused (response : Response.t) :
  Response.accepts (Response.Piped (Response.stream response))
    (Response.status response) (Response.statusText response) = false ->
  relay response = None.
Proof. intros H. now rewrite relay_eq, H. Qed.

Lemma map_normalize_idem (vs : list string) :
  map Headers.normalize (map Headers.normalize vs) = map Headers.normalize vs.
Proof.
  rewrite map_map. apply map_ext. intros v. apply normalize_idem.
Qed.

Lemma values_relay (response r : Response.t) (n : string) :
  relay response = Some r ->
  Headers.values (Response.headers r) n
  = if Headers.name_eq "Referrer-Policy" n then ["no-referrer"]
    else if Headers.name_eq "X-Frame-Options" n then ["DENY"]
    else if Headers.name_eq "X-Content-Type-Options" n then ["nosniff"]
    else if Headers.toLowerCase n =? "set-cookie"
         then map Headers.normalize (Headers.values (Response.headers response) n)
         else match Headers.get (Response.headers response) n with
              | Some v => [Headers.normalize v]
              | None => []
              end.
Proof.
  rewrite relay_eq. destruct (Response.accepts _ _ _); [|discriminate].
  intros H. injection H as <-.
  unfold Response.make. cbn [Response.headers]. rewrite !make_map.
  rewrite values_normalized, values_entries, has_values, !values_set.
  destruct (Headers.name_eq "Referrer-Policy" n) eqn:E1.
  { apply name_eq_true in E1. now rewrite <- E1. }
  destruct (Headers.name_eq "X-Frame-Options" n) eqn:E2.
  { apply name_eq_true in E2. now rewrite <- E2. }
  destruct (Headers.name_eq "X-Content-Type-Options" n) eqn:E3.
  { apply name_eq_true in E3. now rewrite <- E3. }
  rewrite values_normalized, values_entries,
    (has_get (Response.headers response) n).
  destruct (Headers.has (Response.headers response) n) eqn:Hh.
  - destruct (Headers.toLowerCase n =? "set-cookie").
    + rewrite has_values in Hh.
      destruct (Headers.values (Response.headers response) n) as [|v vs];
        [discriminate|].
      cbn [map List.length Nat.eqb negb]. cbn [map].
      now rewrite normalize_idem, map_normalize_idem.
    + cbn [map List.length Nat.eqb negb String.concat].
      now rewrite normalize_idem.
  - cbn. rewrite has_values in Hh.
    destruct (Headers.values (Response.headers response) n); [|discriminate].
    now destruct (Headers.toLowerCase n =? "set-cookie").
Qed.

Lemma get_relay (response r : Response.t) (n : string) :
  relay response = Some r ->
  Headers.get (Response.headers r) n
  = if Headers.name_eq "Referrer-Policy" n then Some "no-referrer"
    else if Headers.name_eq "X-Frame-Options" n then Some "DENY"
    else if Headers.name_eq "X-Content-Type-Options" n then Some "nosniff"
    else if Headers.toLowerCase n =? "set-cookie"
         then match Headers.values (Response.headers response) n with
              | [] => None
              | vs => Some (String.concat ", " (map Headers.normalize vs))
              end
         else option_map Headers.normalize (Headers.get (Response.headers response) n).
Proof.
  intros H. unfold Headers.get at 1. rewrite (values_relay response r n H).
  destruct (Headers.name_eq "Referrer-Policy" n); [reflexivity|].
  destruct (Headers.name_eq "X-Frame-Options" n); [reflexivity|].
  destruct (Headers.name_eq "X-Content-Type-Options" n); [reflexivity|].
  destruct (Headers.toLowerCase n =? "set-cookie").
  - now destruct (Headers.values (Response.headers response) n).
  - now destruct (Headers.get (Response.headers response) n).
Qed.

Lemma secured_relay (response r : Response.t) :
  relay response = Some r -> secured r.
Proof.
  intros H. repeat split; rewrite (get_relay response r _ H); reflexivity.
Qed.

End HandlerFacts.

(** ** The router *)

Lemma Forall_rejected (path : string) (ps : list string) :
  Forall (fun q => accepts path q = false) ps
  <-> Forall (fun q => ~ PrefixMatch path q) ps.
Proof.
  rewrite !Forall_forall. split; intros H q Hq.
  - rewrite <- accepts_spec. rewrite (H q Hq). discriminate.
  - specialize (H q Hq). rewrite <- accepts_spec in H.
    now destruct (accepts path q).
Qed.

(** C1. The router returns the first prefix, in the order of the table,
    that the path starts with and that is followed by nothing or by a
    slash; every prefix before it is not a prefix match of the path.  A
    path made of a prefix, a dash and a suffix is not taken for that
    prefix and the scan goes on with the prefixes after it
    ([/gemini-pro] finds nothing in the table).  When no prefix is
    accepted the router answers no-match. *)
Theorem router_first_match (path : string) (prefixes : list string) :
  ((exists before prefix after rest,
       prefixes = (before ++ prefix :: after)%list
       /\ Forall (fun q => ~ PrefixMatch path q) before
       /\ path = prefix ++ rest
       /\ (rest = "" \/ exists t, rest = "/" ++ t)
       /\ extractPrefixAndRest path prefixes = (Some prefix, Some rest))
   \/ (Forall (fun q => ~ PrefixMatch path q) prefixes
       /\ extractPrefixAndRest path prefixes = (None, None)))
  /\ (forall prefix suffix,
        ~ PrefixMatch (prefix ++ "-" ++ suffix) prefix
        /\ extractPrefixAndRest (prefix ++ "-" ++ suffix) (prefix :: prefixes)
           = extractPrefixAndRest (prefix ++ "-" ++ suffix) prefixes)
  /\ extractPrefixAndRest "/gemini-pro" (Object_keys apiMapping) = (None, None).
Proof.
  split; [|split; [|reflexivity]].
  - destruct (extract_shape path prefixes) as [[p [r H]] | H].
    + left. pose proof H as H'.
      apply extract_some in H' as (b & a & Hps & Hb & Hacc & Hr).
      exists b, p, a, r. repeat split; auto.
      * now apply Forall_rejected.
      * subst r. apply startsWith_split.
        unfold accepts in Hacc. now apply andb_true_iff in Hacc.
      * subst r. apply boundary_ok.
        unfold accepts in Hacc. now apply andb_true_iff in Hacc.
    + right. split; [|exact H].
      now apply Forall_rejected, extract_none.
  - intros prefix suffix. split.
    + rewrite <- accepts_spec, accepts_dash. discriminate.
    + now rewrite extract_cons, accepts_dash.
Qed.

(** C10. A match returned by the router for the configured table splits
    the path: prefix followed by rest is the request path, and the
    prefix is a key of the table.  The only other answer is no-match,
    with both components null. *)
Theorem router_match_sound (path : string) :
  match extractPrefixAndRest path (Object_keys apiMapping) with
  | (Some prefix, Some rest) =>
      prefix ++ rest = path
      /\ In prefix (Object_keys apiMapping)
      /\ exists base, In (prefix, base) apiMapping
  | (None, None) => True
  | _ => False
  end.
Proof.
  destruct (extract_shape path (Object_keys apiMapping)) as [[p [r H]] | H];
    rewrite H; [|exact I].
  apply extract_some in H as (b & a & Hps & _ & Hacc & ->).
  assert (Hin : In p (Object_keys apiMapping)).
  { rewrite Hps. apply in_elt. }
  repeat split.
  - symmetry. apply startsWith_split.
    unfold accepts in Hacc. now apply andb_true_iff in Hacc.
  - exact Hin.
  - unfold Object_keys in Hin. apply in_map_iff in Hin as [[k v] [<- Hkv]].
    now exists v.
Qed.

(** ** The header filter *)

(** C2, the claim as stated fails: of [Accept: a] followed by an
    [Accept] with an empty value the request answers [a, ] for the
    name, and the outbound set holds [a,]: the entry is not the inbound
    one. *)
Lemma header_filter_not_verbatim :
  Headers.get [("Accept", "a"); ("Accept", "")] "Accept" = Some "a, "
  /\ Headers.get (forwardHeaders [("Accept", "a"); ("Accept", "")]) "Accept" = Some "a,"
  /\ ~ (forall (inbound : Headers.t) (name : string),
           Headers.get (forwardHeaders inbound) name
           = if includes allowedHeaders (Headers.toLowerCase name)
                || (Headers.toLowerCase name =? "user-agent")
             then Headers.get inbound name
             else None).
Proof.
  split; [reflexivity | split; [reflexivity|]].
  intros H. specialize (H [("Accept", "a"); ("Accept", "")] "Accept").
  discriminate H.
Qed.

(** C2, amended.  Read through the case-insensitive mapping, the
    outbound header set holds an inbound header exactly when its
    lower-cased name is on the allow-list or is [user-agent], and holds
    it once; its value is the inbound value with leading and trailing
    white space removed, so the inbound value itself when it has none;
    every other name is absent.  The set handed to the outbound call is
    this one.  For [Cookie], [Authorization] and [Host] inbound, only
    [Authorization: Bearer X] goes out. *)
Theorem header_filter_allow_list :
  (forall (inbound : Headers.t) (name : string),
      Headers.get (forwardHeaders inbound) name
      = (if includes allowedHeaders (Headers.toLowerCase name)
            || (Headers.toLowerCase name =? "user-agent")
         then option_map Headers.normalize (Headers.get inbound name)
         else None)
      /\ Headers.has (forwardHeaders inbound) name
         = (includes allowedHeaders (Headers.toLowerCase name)
            || (Headers.toLowerCase name =? "user-agent"))
           && Headers.has inbound name
      /\ List.length (Headers.values (forwardHeaders inbound) name) <= 1)
  /\ (forall (inbound : Headers.t) (name value : string),
        includes allowedHeaders (Headers.toLowerCase name)
        || (Headers.toLowerCase name =? "user-agent") = true ->
        Headers.get inbound name = Some value ->
        Headers.normalize value = value ->
        Headers.get (forwardHeaders inbound) name = Some value)
  /\ (forall request : Request.t,
        match serve request with
        | Respond _ => True
        | Fetch _ init _ =>
            fetch_headers init = forwardHeaders (Request.headers request)
        end)
  /\ (let outbound :=
        forwardHeaders [("Cookie", "a=b"); ("Authorization", "Bearer X"); ("Host", "foo")] in
      Headers.get outbound "Authorization" = Some "Bearer X"
      /\ Headers.get outbound "Cookie" = None
      /\ Headers.get outbound "Host" = None
      /\ List.length outbound = 1).
Proof.
  split; [|split; [|split]].
  - intros inbound name. split; [apply get_forwardHeaders | split].
    + rewrite has_values, values_forwardHeaders. now destruct (_ && _).
    + rewrite values_forwardHeaders. destruct (_ && _); simpl; lia.
  - intros inbound name value A Hg Hn.
    now rewrite get_forwardHeaders, A, Hg; cbn [option_map]; rewrite Hn.
  - intros request. unfold serve, handle.
    destruct (_ || _); [exact I|].
    destruct (_ =? _); [exact I|].
    destruct (extractPrefixAndRest _ _) as [prefix rest].
    destruct (negb _); [exact I | reflexivity].
  - now vm_compute.
Qed.

Section ForwardedNames.

Import Headers.

Variable P : string -> Prop.

Lemma set_names (h : t) (k v : string) :
  Forall (fun e => P (fst e)) h -> P k -> Forall (fun e => P (fst e)) (set h k v).
Proof.
  intros Hh Hk. unfold set, push. destruct (has h k).
  - induction Hh as [|[k' w] h Hx Hh IH]; simpl; [constructor|].
    destruct (name_eq k' k).
    + constructor; [exact Hx|]. apply Forall_forall. intros e [He _]%filter_In.
      rewrite Forall_forall in Hh. now apply Hh.
    + constructor; assumption.
  - apply Forall_app. split; [exact Hh | now repeat constructor].
Qed.

Lemma scan_names (l : list (string * string)) (acc : t) :
  Forall (fun e => P (fst e)) l ->
  Forall (fun e => P (fst e)) acc ->
  Forall (fun e => P (fst e)) (fold_left copyAllowed l acc).
Proof.
  intros Hl. revert acc.
  induction Hl as [|[k v] l Hx Hl IH]; intros acc Hacc; cbn [fold_left].
  - exact Hacc.
  - apply IH. unfold copyAllowed.
    destruct (includes allowedHeaders (toLowerCase k)); [|exact Hacc].
    now apply set_names.
Qed.

End ForwardedNames.

Lemma entries_lower (h : Headers.t) :
  Forall (fun e => Headers.toLowerCase (fst e) = fst e) (Headers.entries h).
Proof.
  apply Forall_forall. intros e He. unfold Headers.entries in He.
  apply in_flat_map in He as [m [Hm He]].
  assert (Hf : fst e = m).
  { unfold Headers.entries_of in He. destruct (m =? "set-cookie").
    - apply in_map_iff in He as [v [<- _]]. reflexivity.
    - destruct He as [<- | []]. reflexivity. }
  rewrite Hf. exact (names_lower h m Hm).
Qed.

(** C8, as the code has it.  The loop reads the inbound names through
    the iterator, which hands them out in lower case: every name in the
    outbound set is a lower-case one, the [User-Agent] of the separate
    step apart, so the name of a forwarded allow-listed header is the
    lower-cased one and not the one received.  [Authorization: Bearer X]
    goes out as [authorization: Bearer X]; the value is kept. *)
Theorem forwarded_name_lowercased :
  (forall (inbound : Headers.t) (e : string * string),
      In e (forwardHeaders inbound) ->
      fst e = "User-Agent" \/ Headers.toLowerCase (fst e) = fst e)
  /\ Headers.entries [("Authorization", "Bearer X")] = [("authorization", "Bearer X")]
  /\ forwardHeaders [("Authorization", "Bearer X")] = [("authorization", "Bearer X")]
  /\ forwardHeaders [("Authorization", "Bearer X")] <> [("Authorization", "Bearer X")].
Proof.
  split; [|repeat split; discriminate].
  intros inbound.
  set (P := fun n : string => n = "User-Agent" \/ Headers.toLowerCase n = n).
  assert (Hscan : Forall (fun e => P (fst e))
                    (fold_left copyAllowed (Headers.entries inbound) Headers.empty)).
  { apply scan_names; [|constructor].
    eapply Forall_impl; [|apply entries_lower]. intros e He. now right. }
  assert (Hall : Forall (fun e => P (fst e)) (forwardHeaders inbound)).
  { unfold forwardHeaders. destruct (Headers.has inbound "user-agent"); [|exact Hscan].
    apply set_names; [exact Hscan | now left]. }
  rewrite Forall_forall in Hall. exact Hall.
Qed.

(** ** The dispatcher *)

(** C3. For a path made of a configured prefix and a remainder that is
    empty or starts with a slash, the router returns that prefix and
    that remainder, and the outbound call goes to the upstream base of
    the prefix followed by the remainder and the query string; with an
    empty remainder that is the bare base and the query string. *)
Theorem target_url (request : Request.t) (prefix base rest : string) :
  In (prefix, base) apiMapping ->
  URL.pathname (Request.url request) = prefix ++ rest ->
  (rest = "" \/ exists x, rest = "/" ++ x) ->
  extractPrefixAndRest (URL.pathname (Request.url request)) (Object_keys apiMapping)
  = (Some prefix, Some rest)
  /\ targetUrl_of (serve request)
     = Some (base ++ rest ++ URL.search (Request.url request))
  /\ (rest = "" ->
      targetUrl_of (serve request) = Some (base ++ URL.search (Request.url request))).
Proof.
  intros Hin Hpath Hrest.
  destruct (route_hit prefix base rest Hin Hrest) as (Hr & Hg & Ht & H1 & H2 & H3).
  assert (Hu : targetUrl_of (serve request)
               = Some (base ++ rest ++ URL.search (Request.url request))).
  { unfold serve, handle. rewrite Hpath, H1, H2, H3, Hr.
    cbn [orb]. rewrite Ht. cbn [negb Str.template].
    rewrite Hg. reflexivity. }
  split; [now rewrite Hpath | split; [exact Hu|]].
  intros ->. exact Hu.
Qed.

Lemma target_url_witness :
  In ("/openai", "https://api.openai.com") apiMapping
  /\ targetUrl_of (serve (request_of "GET" "/openai/v1/models" "?limit=5" []))
     = Some "https://api.openai.com/v1/models?limit=5".
Proof.
  assert (Hin : In ("/openai", "https://api.openai.com") apiMapping).
  { do 3 right. left. reflexivity. }
  split; [exact Hin|].
  apply (target_url (request_of "GET" "/openai/v1/models" "?limit=5" [])
                    "/openai" "https://api.openai.com" "/v1/models" Hin).
  - reflexivity.
  - right. exists "v1/models". reflexivity.
Defined.

(** C4. A path that is none of [/], [/index.html], [/robots.txt] and is
    a prefix match of no configured prefix gets status 404 with the
    plain-text body [Not Found], and no outbound call is issued. *)
Theorem not_found (request : Request.t) :
  URL.pathname (Request.url request) <> "/" ->
  URL.pathname (Request.url request) <> "/index.html" ->
  URL.pathname (Request.url request) <> "/robots.txt" ->
  (forall prefix, In prefix (Object_keys apiMapping) ->
                  ~ PrefixMatch (URL.pathname (Request.url request)) prefix) ->
  exists r,
    serve request = Respond r
    /\ calls_of (serve request) = []
    /\ Response.status r = 404%Z
    /\ Response.body r = Response.Text "Not Found"
    /\ Headers.get (Response.headers r) "Content-Type" = Some "text/plain;charset=UTF-8".
Proof.
  intros H1 H2 H3 Hno.
  assert (Hr : extractPrefixAndRest (URL.pathname (Request.url request))
                 (Object_keys apiMapping) = (None, None)).
  { apply extract_none, Forall_rejected, Forall_forall. exact Hno. }
  rewrite (handle_miss request H1 H2 H3 Hr).
  eexists. repeat split.
Qed.

Lemma not_found_witness :
  exists r,
    serve (request_of "GET" "/gemini-pro" "" []) = Respond r
    /\ Response.status r = 404%Z.
Proof.
  destruct (not_found (request_of "GET" "/gemini-pro" "" [])) as (r & Hs & _ & Hst & _).
  - discriminate.
  - discriminate.
  - discriminate.
  - intros prefix Hin. unfold request_of. cbn [URL.pathname Request.url].
    rewrite <- accepts_spec.
    assert (Hf : Forall (fun q => accepts "/gemini-pro" q = false) (Object_keys apiMapping)).
    { repeat constructor. }
    rewrite Forall_forall in Hf. rewrite (Hf prefix Hin). discriminate.
  - exists r. split; assumption.
Defined.

(** C5. When the outbound call of a request throws, the response is
    status 500 with the body [Internal Server Error], whatever the
    request was, and that one call is the only one issued: nothing is
    tried again. *)
Theorem upstream_failure (fetch : string -> FetchInit -> Outcome)
        (request : Request.t) (targetUrl : string) (init : FetchInit)
        (k : Outcome -> Response.t) :
  serve request = Fetch targetUrl init k ->
  fetch targetUrl init = Thrown ->
  run fetch (serve request)
  = {| Response.status := 500;
       Response.statusText := "";
       Response.headers := [("content-type", "text/plain;charset=UTF-8")];
       Response.body := Response.Text "Internal Server Error" |}
  /\ calls_of (serve request) = [(targetUrl, init)].
Proof.
  intros Hs Hf. pose proof (handle_fetch _ _ _ _ _ Hs) as ->.
  rewrite Hs. cbn [run calls_of]. rewrite Hf. split; reflexivity.
Qed.

Lemma upstream_failure_witness :
  Response.status
    (run (fun _ _ => Thrown) (serve (request_of "POST" "/claude/v1/messages" "" [])))
  = 500%Z.
Proof.
  refine (f_equal Response.status
            (proj1 (upstream_failure (fun _ _ => Thrown)
                      (request_of "POST" "/claude/v1/messages" "" [])
                      _ _ _ eq_refl eq_refl))).
Defined.

(** C6, the claim as stated fails.  An upstream answer with status 999
    is not relayed: the constructor of the relayed response throws and
    the response is the 500 of the [catch] clause.  And of an upstream
    [Vary: Accept] followed by an empty [Vary], which answers
    [Accept, ] for the name, the relayed response holds [Accept,]. *)
Lemma relay_not_for_every_response :
  Response.status
    (run (fun _ _ => Resolved denied) (serve (request_of "GET" "/openai/v1/models" "" [])))
  = 500%Z
  /\ Headers.get (Response.headers varied) "Vary" = Some "Accept, "
  /\ Headers.get
       (Response.headers
          (run (fun _ _ => Resolved varied)
               (serve (request_of "GET" "/openai/v1/models" "" []))))
       "Vary"
     = Some "Accept,"
  /\ ~ (forall (fetch : string -> FetchInit -> Outcome) (request : Request.t)
               (targetUrl : string) (init : FetchInit) (k : Outcome -> Response.t)
               (upstream : Response.t),
           serve request = Fetch targetUrl init k ->
           fetch targetUrl init = Resolved upstream ->
           Response.status (run fetch (serve request)) = Response.status upstream).
Proof.
  repeat split.
  intros H.
  specialize (H (fun _ _ => Resolved denied)
                (request_of "GET" "/openai/v1/models" "" []) _ _ _ denied
                eq_refl eq_refl).
  discriminate H.
Qed.

(** C6, amended.  When the outbound call resolves with a status, a
    status text and a body the constructor of the relayed response
    accepts (status in 200-599, status text a reason phrase, no body
    with a null body status), the relayed response has the status code,
    the status text and the body stream of the upstream response and
    carries [X-Content-Type-Options: nosniff], [X-Frame-Options: DENY]
    and [Referrer-Policy: no-referrer].  Every other header name is
    answered as the upstream response answers it, with leading and
    trailing white space removed from the value ([Set-Cookie]: from each
    of its values): unchanged, then, when there is none to remove. *)
Theorem relay_response (fetch : string -> FetchInit -> Outcome)
        (request : Request.t) (targetUrl : string) (init : FetchInit)
        (k : Outcome -> Response.t) (upstream : Response.t) :
  serve request = Fetch targetUrl init k ->
  fetch targetUrl init = Resolved upstream ->
  Response.accepts (Response.Piped (Response.stream upstream))
    (Response.status upstream) (Response.statusText upstream) = true ->
  Response.status (run fetch (serve request)) = Response.status upstream
  /\ Response.statusText (run fetch (serve request)) = Response.statusText upstream
  /\ Response.body (run fetch (serve request))
     = Response.Piped (Response.stream upstream)
  /\ secured (run fetch (serve request))
  /\ (forall name,
        Headers.name_eq "X-Content-Type-Options" name = false ->
        Headers.name_eq "X-Frame-Options" name = false ->
        Headers.name_eq "Referrer-Policy" name = false ->
        Headers.get (Response.headers (run fetch (serve request))) name
        = (if Headers.toLowerCase name =? "set-cookie"
           then match Headers.values (Response.headers upstream) name with
                | [] => None
                | vs => Some (String.concat ", " (map Headers.normalize vs))
                end
           else option_map Headers.normalize
                  (Headers.get (Response.headers upstream) name))
        /\ ((if Headers.toLowerCase name =? "set-cookie"
             then map Headers.normalize (Headers.values (Response.headers upstream) name)
                  = Headers.values (Response.headers upstream) name
             else option_map Headers.normalize
                    (Headers.get (Response.headers upstream) name)
                  = Headers.get (Response.headers upstream) name) ->
            Headers.get (Response.headers (run fetch (serve request))) name
            = Headers.get (Response.headers upstream) name)).
Proof.
  intros Hs Hf Hacc. pose proof (handle_fetch _ _ _ _ _ Hs) as ->.
  rewrite Hs. cbn [run]. rewrite Hf. cbn [settle].
  destruct (relay_accepted upstream Hacc) as [r Hr]. rewrite Hr.
  destruct (relay_fields upstream r Hr) as (_ & H1 & H2 & H3).
  split; [exact H1|]. split; [exact H2|]. split; [exact H3|].
  split; [exact (secured_relay upstream r Hr)|].
  intros name E1 E2 E3. rewrite (get_relay upstream r _ Hr), E1, E2, E3.
  split; [reflexivity|]. intros Hclean.
  destruct (Headers.toLowerCase name =? "set-cookie"); [|exact Hclean].
  unfold Headers.get.
  destruct (Headers.values (Response.headers upstream) name) as [|v vs];
    [reflexivity|].
  now rewrite Hclean.
Qed.

Lemma relay_response_witness :
  let r := run (fun _ _ => Resolved created)
               (serve (request_of "POST" "/openai/v1/files" "" [])) in
  Response.status r = 201%Z
  /\ Headers.get (Response.headers r) "Content-Type" = Some "application/json".
Proof.
  destruct (relay_response (fun _ _ => Resolved created)
              (request_of "POST" "/openai/v1/files" "" [])
              _ _ _ created eq_refl eq_refl eq_refl) as (Hst & _ & _ & _ & Hh).
  split; [exact Hst|].
  destruct (Hh "Content-Type" eq_refl eq_refl eq_refl) as [Hg _]. exact Hg.
Defined.

Lemma handle_respond (router : string -> list string -> option string * option string)
      (request : Request.t) (r : Response.t) :
  handle router request = Respond r ->
  r = Response.make (Response.Text "Service is running!") 200 ""
        [("Content-Type", "text/html; charset=utf-8")]
  \/ r = Response.make
           (Response.Text ("User-agent: *" ++ String "010" "Disallow: /")) 200 ""
           [("Content-Type", "text/plain; charset=utf-8")]
  \/ r = Response.make (Response.Text "Not Found") 404 "" [].
Proof.
  unfold handle.
  destruct (_ || _); [intros H; injection H as <-; auto|].
  destruct (_ =? _); [intros H; injection H as <-; auto|].
  destruct (router _ _) as [prefix rest].
  destruct (negb _); [intros H; injection H as <-; auto | discriminate].
Qed.

(** C7, the claim as stated fails: the static page is returned without
    the three headers. *)
Lemma security_headers_not_everywhere :
  ~ (forall (fetch : string -> FetchInit -> Outcome) (request : Request.t),
        secured (run fetch (serve request))).
Proof.
  intros H.
  destruct (H (fun _ _ => Thrown) (request_of "GET" "/" "" [])) as [H1 _].
  discriminate H1.
Qed.

(** C7, amended.  A response carries [X-Content-Type-Options: nosniff],
    [X-Frame-Options: DENY] and [Referrer-Policy: no-referrer] exactly
    when it is the relay of a resolved outbound call, that is when the
    call resolved with a status, a status text and a body the
    constructor of the relayed response accepts; the static page, the
    robots file, the 404 and the 500 are returned without them. *)
Theorem security_headers_on_relay (fetch : string -> FetchInit -> Outcome)
        (request : Request.t) :
  secured (run fetch (serve request))
  <-> exists targetUrl init k upstream,
        serve request = Fetch targetUrl init k
        /\ fetch targetUrl init = Resolved upstream
        /\ Response.accepts (Response.Piped (Response.stream upstream))
             (Response.status upstream) (Response.statusText upstream) = true.
Proof.
  split.
  - destruct (serve request) as [r | targetUrl init k] eqn:Hs.
    + intros [H1 _]. exfalso.
      apply handle_respond in Hs as [-> | [-> | ->]]; discriminate H1.
    + pose proof (handle_fetch _ _ _ _ _ Hs) as ->. cbn [run].
      destruct (fetch targetUrl init) as [upstream|] eqn:Hf; cbn [settle].
      * destruct (Response.accepts (Response.Piped (Response.stream upstream))
                    (Response.status upstream) (Response.statusText upstream)) eqn:Hacc.
        -- intros _. now exists targetUrl, init, settle, upstream.
        -- rewrite (relay_refused upstream Hacc). intros [H1 _]. discriminate H1.
      * intros [H1 _]. discriminate H1.
  - intros (targetUrl & init & k & upstream & Hs & Hf & Hacc).
    pose proof (handle_fetch _ _ _ _ _ Hs) as ->.
    rewrite Hs. cbn [run]. rewrite Hf. cbn [settle].
    destruct (relay_accepted upstream Hacc) as [r Hr]. rewrite Hr.
    exact (secured_relay upstream r Hr).
Qed.

(** C9. For the path [/] or [/index.html] the response is status 200,
    body [Service is running!], [Content-Type: text/html;
    charset=utf-8]; for [/robots.txt] it is status 200, body
    [User-agent: *], newline, [Disallow: /], [Content-Type: text/plain;
    charset=utf-8].  Both hold whatever the method and whatever router
    the handler is given: the router is not consulted. *)
Theorem static_pages
        (router : string -> list string -> option string * option string)
        (request : Request.t) (path : string) :
  URL.pathname (Request.url request) = path ->
  (path = "/" \/ path = "/index.html" ->
   handle router request
   = Respond {| Response.status := 200;
                Response.statusText := "";
                Response.headers := [("Content-Type", "text/html; charset=utf-8")];
                Response.body := Response.Text "Service is running!" |})
  /\ (path = "/robots.txt" ->
      handle router request
      = Respond {| Response.status := 200;
                   Response.statusText := "";
                   Response.headers := [("Content-Type", "text/plain; charset=utf-8")];
                   Response.body :=
                     Response.Text ("User-agent: *" ++ String "010" "Disallow: /") |}).
Proof.
  intros Hp. unfold handle. rewrite Hp. split.
  - intros [-> | ->]; reflexivity.
  - intros ->. reflexivity.
Qed.

Lemma static_pages_witness :
  serve (request_of "GET" "/index.html" "" [])
  = Respond {| Response.status := 200;
               Response.statusText := "";
               Response.headers := [("Content-Type", "text/html; charset=utf-8")];
               Response.body := Response.Text "Service is running!" |}
  /\ calls_of (serve (request_of "GET" "/robots.txt" "" [])) = [].
Proof.
  split.
  - apply (proj1 (static_pages extractPrefixAndRest
                    (request_of "GET" "/index.html" "" []) "/index.html" eq_refl)).
    right. reflexivity.
  - unfold serve.
    rewrite (proj2 (static_pages extractPrefixAndRest
                      (request_of "GET" "/robots.txt" "" []) "/robots.txt" eq_refl)
                   eq_refl).
    reflexivity.
Defined.

(** ** Further properties of the router *)

Lemma extract_perm (path : string) (ps ps' : list string) :
  (forall p q, In p ps -> In q ps ->
               accepts path p = true -> accepts path q = true -> p = q) ->
  Permutation ps ps' ->
  extractPrefixAndRest path ps' = extractPrefixAndRest path ps.
Proof.
  intros Huniq Hperm.
  destruct (extract_shape path ps) as [[p [r H]] | H];
    destruct (extract_shape path ps') as [[p' [r' H']] | H']; rewrite H, H'.
  - apply extract_some in H as (b & a & Hps & _ & Hacc & ->).
    apply extract_some in H' as (b' & a' & Hps' & _ & Hacc' & ->).
    assert (Hin : In p ps) by (rewrite Hps; apply in_elt).
    assert (Hin' : In p' ps).
    { apply (Permutation_in _ (Permutation_sym Hperm)). rewrite Hps'. apply in_elt. }
    now rewrite (Huniq p p' Hin Hin' Hacc Hacc').
  - exfalso. apply extract_some in H as (b & a & Hps & _ & Hacc & _).
    apply extract_none in H'. rewrite Forall_forall in H'.
    assert (Hin : In p ps') by (apply (Permutation_in _ Hperm); rewrite Hps; apply in_elt).
    rewrite (H' p Hin) in Hacc. discriminate.
  - exfalso. apply extract_some in H' as (b & a & Hps & _ & Hacc & _).
    apply extract_none in H. rewrite Forall_forall in H.
    assert (Hin : In p' ps).
    { apply (Permutation_in _ (Permutation_sym Hperm)). rewrite Hps. apply in_elt. }
    rewrite (H p' Hin) in Hacc. discriminate.
  - reflexivity.
Qed.

Lemma keys_disjoint (path p q : string) :
  In p (Object_keys apiMapping) ->
  In q (Object_keys apiMapping) ->
  PrefixMatch path p ->
  PrefixMatch path q ->
  p = q.
Proof.
  intros Hp Hq [rest [-> Hb]] Hq'. apply accepts_spec in Hq'.
  unfold Object_keys in Hp, Hq. simpl in Hp, Hq.
  repeat (destruct Hp as [<- | Hp];
          [destruct Hb as [-> | [t ->]];
           repeat (destruct Hq as [<- | Hq];
                   [first [reflexivity | vm_compute in Hq'; discriminate Hq']|]);
           contradiction|]).
  contradiction.
Qed.

(** X1. The prefixes of the table do not overlap: a path is a prefix
    match of at most one configured prefix. *)
Theorem single_prefix_match (path p q : string) :
  In p (Object_keys apiMapping) ->
  In q (Object_keys apiMapping) ->
  PrefixMatch path p ->
  PrefixMatch path q ->
  p = q.
Proof. exact (keys_disjoint path p q). Qed.

Lemma single_prefix_match_witness :
  PrefixMatch "/openai/v1/models" "/openai"
  /\ "/openai" = "/openai".
Proof.
  assert (Hm : PrefixMatch "/openai/v1/models" "/openai").
  { exists "/v1/models". split; [reflexivity | right; now exists "v1/models"]. }
  assert (Hin : In "/openai" (Object_keys apiMapping)).
  { do 3 right. left. reflexivity. }
  split; [exact Hm|].
  exact (single_prefix_match "/openai/v1/models" "/openai" "/openai" Hin Hin Hm Hm).
Defined.

(** X2. Because the prefixes do not overlap, the answer of the router
    does not depend on the order in which the table lists them. *)
Theorem route_order_irrelevant (path : string) (prefixes : list string) :
  Permutation (Object_keys apiMapping) prefixes ->
  extractPrefixAndRest path prefixes
  = extractPrefixAndRest path (Object_keys apiMapping).
Proof.
  apply extract_perm. intros p q Hp Hq Ap Aq.
  apply (keys_disjoint path p q Hp Hq); now apply accepts_spec.
Qed.

Lemma route_order_irrelevant_witness :
  extractPrefixAndRest "/groq/openai/v1" (rev (Object_keys apiMapping))
  = (Some "/groq", Some "/openai/v1").
Proof.
  rewrite (route_order_irrelevant "/groq/openai/v1" (rev (Object_keys apiMapping))
             (Permutation_rev (Object_keys apiMapping))).
  reflexivity.
Defined.

(** X3. Routes added after the table never change what the table
    already matches: over a list followed by another, the router answers
    as over the first list, and consults the second only when the first
    has no match. *)
Theorem route_over_appended (path : string) (prefixes more : list string) :
  extractPrefixAndRest path (prefixes ++ more)%list
  = match extractPrefixAndRest path prefixes with
    | (Some prefix, rest) => (Some prefix, rest)
    | (None, _) => extractPrefixAndRest path more
    end.
Proof.
  induction prefixes as [|p ps IH]; [reflexivity|].
  rewrite <- app_comm_cons, !extract_cons.
  destruct (accepts path p); [reflexivity | exact IH].
Qed.

(** ** Further properties of the dispatcher *)

Lemma Object_get_in (o : list (string * string)) (p : string) :
  In p (Object_keys o) ->
  exists base, Object_get o p = Some base /\ In (p, base) o.
Proof.
  induction o as [|[k v] o IH]; simpl; [contradiction|].
  destruct (String.eqb_spec k p) as [->|Hne].
  - intros _. exists v. auto.
  - intros [H|H]; [contradiction|].
    destruct (IH H) as (base & Hg & Hin). exists base. auto.
Qed.

Lemma serve_routed (request : Request.t) (prefix base rest : string) :
  In (prefix, base) apiMapping ->
  URL.pathname (Request.url request) = prefix ++ rest ->
  (rest = "" \/ exists x, rest = "/" ++ x) ->
  serve request
  = Fetch (base ++ rest ++ URL.search (Request.url request))
      {| fetch_method := Request.method request;
         fetch_headers := forwardHeaders (Request.headers request);
         fetch_body := Request.body request |}
      settle.
Proof.
  intros Hin Hpath Hrest.
  destruct (route_hit prefix base rest Hin Hrest) as (Hr & Hg & Ht & H1 & H2 & H3).
  unfold serve, handle. rewrite Hpath, H1, H2, H3, Hr.
  cbn [orb]. rewrite Ht. cbn [negb Str.template]. rewrite Hg. reflexivity.
Qed.

Lemma serve_fetch_inv (request : Request.t) (targetUrl : string)
      (init : FetchInit) (k : Outcome -> Response.t) :
  serve request = Fetch targetUrl init k ->
  exists prefix base rest,
    In (prefix, base) apiMapping
    /\ URL.pathname (Request.url request) = prefix ++ rest
    /\ (rest = "" \/ exists x, rest = "/" ++ x)
    /\ targetUrl = base ++ rest ++ URL.search (Request.url request)
    /\ fetch_method init = Request.method request
    /\ fetch_body init = Request.body request.
Proof.
  unfold serve, handle.
  destruct (_ || _); [discriminate|].
  destruct (_ =? _); [discriminate|].
  destruct (extract_shape (URL.pathname (Request.url request)) (Object_keys apiMapping))
    as [[p [r Hr]] | Hr]; rewrite Hr; [|discriminate].
  apply extract_some in Hr as (b & a & Hps & _ & Hacc & ->).
  assert (Hin : In p (Object_keys apiMapping)) by (rewrite Hps; apply in_elt).
  destruct (Object_get_in apiMapping p Hin) as (base & Hg & Hpb).
  unfold accepts in Hacc. apply andb_true_iff in Hacc as [Hsw Hb].
  cbn [Str.template]. rewrite Hg. cbn [Str.template].
  destruct (negb _); [discriminate|].
  intros H. injection H as <- <- _.
  exists p, base, (Str.slice (String.length p) (URL.pathname (Request.url request))).
  cbn [fetch_method fetch_body].
  repeat split; auto.
  - now apply startsWith_split.
  - now apply boundary_ok.
Qed.

(** X4. Every outbound call goes to a configured upstream: its target is
    the base of a table entry whose prefix begins the path at a segment
    boundary, followed by the remainder of the path and the query
    string; the call carries the method and the body of the request as
    they came in. *)
Theorem outbound_call_shape (request : Request.t) (targetUrl : string)
        (init : FetchInit) (k : Outcome -> Response.t) :
  serve request = Fetch targetUrl init k ->
  exists prefix base rest,
    In (prefix, base) apiMapping
    /\ URL.pathname (Request.url request) = prefix ++ rest
    /\ (rest = "" \/ exists x, rest = "/" ++ x)
    /\ targetUrl = base ++ rest ++ URL.search (Request.url request)
    /\ fetch_method init = Request.method request
    /\ fetch_body init = Request.body request.
Proof. exact (serve_fetch_inv request targetUrl init k). Qed.

Lemma outbound_call_shape_witness :
  exists prefix base rest,
    In (prefix, base) apiMapping
    /\ "/gemini/v1beta/models" = prefix ++ rest
    /\ (rest = "" \/ exists x, rest = "/" ++ x).
Proof.
  destruct (outbound_call_shape
              (request_of "POST" "/gemini/v1beta/models" "?key=K" []) _ _ _ eq_refl)
    as (prefix & base & rest & H1 & H2 & H3 & _).
  exists prefix, base, rest. auto.
Defined.

(** X5. An outbound call is issued exactly when some configured prefix
    is a prefix match of the path; the three static paths never stand in
    the way of a route. *)
Theorem call_iff_match (request : Request.t) :
  (exists targetUrl init k, serve request = Fetch targetUrl init k)
  <-> exists prefix,
        In prefix (Object_keys apiMapping)
        /\ PrefixMatch (URL.pathname (Request.url request)) prefix.
Proof.
  split.
  - intros (u & i & k & Hs).
    destruct (serve_fetch_inv request u i k Hs)
      as (prefix & base & rest & Hin & Hp & Hb & _).
    exists prefix. split.
    + unfold Object_keys. apply in_map_iff. now exists (prefix, base).
    + now exists rest.
  - intros (prefix & Hin & rest & Hp & Hb).
    unfold Object_keys in Hin. apply in_map_iff in Hin as [[p base] [Hf Hin]].
    simpl in Hf. subst p.
    rewrite (serve_routed request prefix base rest Hin Hp Hb). eauto.
Qed.

(** X6. The handler makes up no status of its own but 200, 404 and 500:
    any other status of a response is the one the upstream answered
    with. *)
Theorem status_origin (fetch : string -> FetchInit -> Outcome) (request : Request.t) :
  Response.status (run fetch (serve request)) = 200%Z
  \/ Response.status (run fetch (serve request)) = 404%Z
  \/ Response.status (run fetch (serve request)) = 500%Z
  \/ exists targetUrl init k upstream,
       serve request = Fetch targetUrl init k
       /\ fetch targetUrl init = Resolved upstream
       /\ Response.status (run fetch (serve request)) = Response.status upstream.
Proof.
  destruct (serve request) as [r | targetUrl init k] eqn:Hs; cbn [run].
  - apply handle_respond in Hs as [-> | [-> | ->]]; auto.
  - pose proof (handle_fetch _ _ _ _ _ Hs) as ->.
    destruct (fetch targetUrl init) as [upstream|] eqn:Hf; cbn [settle].
    + destruct (relay upstream) as [r|] eqn:Hr; [|auto].
      destruct (relay_fields upstream r Hr) as (_ & Hst & _).
      do 3 right. now exists targetUrl, init, settle, upstream.
    + auto.
Qed.

(** X7. A response the handler gives without an outbound call (static
    page, robots file, 404) is decided by the path alone: a request with
    the same path and any other method, query string, headers or body
    gets the same response. *)
Theorem local_response_by_path (request request' : Request.t) :
  URL.pathname (Request.url request') = URL.pathname (Request.url request) ->
  calls_of (serve request) = [] ->
  serve request' = serve request.
Proof.
  unfold serve, handle. intros ->.
  destruct (_ || _); [reflexivity|].
  destruct (_ =? _); [reflexivity|].
  destruct (extractPrefixAndRest _ _) as [prefix rest].
  destruct (negb _); [reflexivity | discriminate].
Qed.

Lemma local_response_by_path_witness :
  serve (request_of "DELETE" "/robots.txt" "?x=1" [("Cookie", "a=b")])
  = serve (request_of "GET" "/robots.txt" "" []).
Proof.
  apply (local_response_by_path
           (request_of "GET" "/robots.txt" "" [])
           (request_of "DELETE" "/robots.txt" "?x=1" [("Cookie", "a=b")]));
    reflexivity.
Defined.

(** ** Further properties of the header filter *)

Section FilterOrder.

Import Headers.

Lemma has_app (h1 h2 : t) (n : string) :
  has (h1 ++ h2)%list n = has h1 n || has h2 n.
Proof. apply existsb_app. Qed.

Lemma filter_allowed_same_name (m : string) (l : list (string * string)) :
  includes allowedHeaders (toLowerCase m) = false ->
  Forall (fun e => fst e = m) l ->
  filter allowed l = [].
Proof.
  intros Hm Hl. induction Hl as [|e l He Hl IH]; [reflexivity|].
  cbn [filter]. unfold allowed at 1. now rewrite He, Hm.
Qed.

Lemma entries_of_name (h : t) (m : string) :
  Forall (fun e => fst e = m) (entries_of h m).
Proof.
  unfold entries_of. destruct (m =? "set-cookie").
  - apply Forall_forall. now intros e [v [<- _]]%in_map_iff.
  - now repeat constructor.
Qed.

Lemma filter_allowed_flat (h : t) (ms : list string) :
  Forall (fun m => toLowerCase m = m) ms ->
  filter allowed (flat_map (entries_of h) ms)
  = map (fun m => (m, String.concat ", " (values h m)))
        (filter (includes allowedHeaders) ms).
Proof.
  induction 1 as [|m ms Hm Hms IH]; [reflexivity|].
  cbn [flat_map filter]. rewrite filter_app, IH.
  destruct (includes allowedHeaders m) eqn:A.
  - unfold entries_of.
    destruct (String.eqb_spec m "set-cookie") as [E|_];
      [rewrite E in A; discriminate A|].
    cbn [filter]. unfold allowed. cbn [fst]. now rewrite Hm, A.
  - rewrite (filter_allowed_same_name m); [reflexivity | | apply entries_of_name].
    now rewrite Hm.
Qed.

Lemma filter_allowed_entries (h : t) :
  filter allowed (entries h)
  = map (fun m => (m, String.concat ", " (values h m)))
        (filter (includes allowedHeaders) (names h)).
Proof.
  apply filter_allowed_flat, Forall_forall. intros m. apply names_lower.
Qed.

Lemma allowed_entries_NoDup (h : t) :
  NoDup (map (fun e => toLowerCase (fst e)) (filter allowed (entries h))).
Proof.
  rewrite filter_allowed_entries, map_map. cbn [fst].
  rewrite (map_ext_in _ (fun m => m)).
  - rewrite map_id. apply NoDup_filter, names_NoDup.
  - intros m [Hm _]%filter_In. now apply (names_lower h).
Qed.

Lemma scan_append (l : list (string * string)) (acc : t) :
  NoDup (map (fun e => toLowerCase (fst e)) (filter allowed l)) ->
  (forall e, In e (filter allowed l) -> has acc (fst e) = false) ->
  fold_left copyAllowed l acc
  = (acc ++ map (fun e => (fst e, normalize (snd e))) (filter allowed l))%list.
Proof.
  revert acc. induction l as [|[k v] l IH]; intros acc Hnd Hacc; cbn [fold_left filter].
  - cbn [map]. now rewrite app_nil_r.
  - cbn [filter] in Hnd, Hacc. unfold copyAllowed at 2.
    assert (Hk : allowed (k, v) = includes allowedHeaders (toLowerCase k)) by reflexivity.
    rewrite Hk in *. clear Hk.
    destruct (includes allowedHeaders (toLowerCase k)) eqn:A.
    + cbn [map fst] in Hnd. apply NoDup_cons_iff in Hnd as [Hk Hnd].
      pose proof (Hacc (k, v) (or_introl eq_refl)) as Hk0. cbn [fst] in Hk0.
      unfold set. rewrite Hk0. unfold push.
      rewrite IH; [cbn [map fst snd]; now rewrite <- app_assoc | exact Hnd |].
      intros e He. rewrite has_app, (Hacc e (or_intror He)). cbn [has existsb fst orb].
      rewrite orb_false_r.
      destruct (name_eq k (fst e)) eqn:E; [|reflexivity].
      exfalso. apply Hk. apply name_eq_true in E. rewrite E.
      apply in_map_iff. now exists e.
    + now apply IH.
Qed.

End FilterOrder.

Lemma forwarded_list_eq (inbound : Headers.t) :
  forwardHeaders inbound
  = (map (fun e => (fst e, Headers.normalize (snd e)))
         (filter allowed (Headers.entries inbound))
     ++ match Headers.get inbound "user-agent" with
        | Some ua => [("User-Agent", Headers.normalize ua)]
        | None => []
        end)%list.
Proof.
  unfold forwardHeaders.
  rewrite scan_append; [|apply allowed_entries_NoDup | reflexivity].
  unfold Headers.empty. cbn [List.app].
  rewrite (has_get inbound "user-agent").
  destruct (Headers.has inbound "user-agent"); [|now rewrite app_nil_r].
  cbn [Str.template]. unfold Headers.set.
  rewrite has_normalized, has_values, values_filter_allowed. reflexivity.
Qed.

(** X8. The outbound header list is the allow-listed entries of the
    iteration over the inbound headers, in the order of the iteration,
    each name once and each value with its leading and trailing white
    space removed, followed by [User-Agent] with the inbound value,
    likewise trimmed, when the request has one. *)
Theorem forwarded_list (inbound : Headers.t) :
  forwardHeaders inbound
  = (map (fun e => (fst e, Headers.normalize (snd e)))
         (filter allowed (Headers.entries inbound))
     ++ match Headers.get inbound "user-agent" with
        | Some ua => [("User-Agent", Headers.normalize ua)]
        | None => []
        end)%list.
Proof. exact (forwarded_list_eq inbound). Qed.

(** X9. Whatever the request sends, at most five headers reach the
    upstream: the four of the allow-list and [User-Agent]. *)
Theorem forwarded_at_most_five (inbound : Headers.t) :
  List.length (forwardHeaders inbound) <= 5.
Proof.
  rewrite forwarded_list_eq. rewrite length_app, length_map.
  assert (H4 : List.length (filter allowed (Headers.entries inbound)) <= 4).
  { rewrite filter_allowed_entries, length_map.
    apply (NoDup_incl_length (l' := allowedHeaders)).
    - apply NoDup_filter, names_NoDup.
    - intros m [_ Hm]%filter_In. unfold includes in Hm.
      apply existsb_exists in Hm as [x [Hx ->%String.eqb_eq]]. exact Hx. }
  destruct (Headers.get inbound "user-agent"); simpl; lia.
Qed.

(** X10. The upstream call carries no header at all exactly when the
    request has none of the four allow-listed headers and no
    [User-Agent]. *)
Theorem forwarded_nothing (inbound : Headers.t) :
  forwardHeaders inbound = []
  <-> forall name, In name ("user-agent" :: allowedHeaders) ->
                   Headers.has inbound name = false.
Proof.
  split.
  - intros Hnil name Hin.
    pose proof (get_forwardHeaders inbound name) as Hg.
    rewrite Hnil in Hg. cbn in Hin.
    assert (Hn : Headers.get inbound name = None).
    { destruct (Headers.get inbound name) as [v|]; [exfalso | reflexivity].
      repeat (destruct Hin as [<- | Hin]; [discriminate Hg|]). contradiction. }
    rewrite has_get in Hn. now destruct (Headers.has inbound name).
  - intros Hno. destruct (forwardHeaders inbound) as [|[k v] l] eqn:Hf; [reflexivity|].
    exfalso.
    pose proof (values_forwardHeaders inbound k) as Hv.
    rewrite Hf, values_cons in Hv. cbn [fst snd] in Hv.
    rewrite name_eq_refl in Hv.
    destruct (includes allowedHeaders (Headers.toLowerCase k)
              || (Headers.toLowerCase k =? "user-agent")) eqn:A; [|discriminate Hv].
    assert (Hin : In (Headers.toLowerCase k) ("user-agent" :: allowedHeaders)).
    { apply orb_true_iff in A as [A|A].
      - right. unfold includes in A.
        apply existsb_exists in A as [x [Hx ->%String.eqb_eq]]. exact Hx.
      - left. symmetry. now apply String.eqb_eq. }
    assert (Hh : Headers.has inbound k = false).
    { rewrite has_values, <- (values_congr inbound (Headers.toLowerCase k) k),
        <- has_values.
      - now apply Hno.
      - rewrite name_eq_lower. apply name_eq_refl. }
    rewrite Hh in Hv. discriminate Hv.
Qed.

(** X11. Filtering is idempotent on what a header name answers: an
    outbound set put through the filter again answers every name as
    before. *)
Theorem filter_twice (inbound : Headers.t) (name : string) :
  Headers.get (forwardHeaders (forwardHeaders inbound)) name
  = Headers.get (forwardHeaders inbound) name.
Proof.
  rewrite (get_forwardHeaders (forwardHeaders inbound)), get_forwardHeaders.
  destruct (includes allowedHeaders (Headers.toLowerCase name)
            || (Headers.toLowerCase name =? "user-agent")); [|reflexivity].
  destruct (Headers.get inbound name); [|reflexivity].
  cbn [option_map]. now rewrite normalize_idem.
Qed.

(** ** The console output of the header filter *)

Lemma scan_logged (l : list (string * string)) (acc : Headers.t) (console : list string) :
  fold_left copyAllowedLogged l (acc, console)
  = (fold_left copyAllowed l acc,
     List.app console
       (map (fun e => "Forwarding header: " ++ fst e ++ ": " ++ shown (snd e))
            (filter allowed l))).
Proof.
  revert acc console. induction l as [|[k v] l IH]; intros acc console;
    cbn [fold_left filter].
  - now rewrite app_nil_r.
  - unfold copyAllowedLogged at 2. unfold copyAllowed at 2.
    assert (Hk : allowed (k, v) = includes allowedHeaders (Headers.toLowerCase k))
      by reflexivity.
    rewrite Hk. destruct (includes allowedHeaders (Headers.toLowerCase k)).
    + rewrite IH. cbn [map fst snd]. now rewrite <- app_assoc.
    + apply IH.
Qed.

Lemma forwardHeadersLogged_eq (inbound : Headers.t) :
  forwardHeadersLogged inbound
  = (forwardHeaders inbound,
     List.app
       (map (fun e => "Forwarding header: " ++ fst e ++ ": " ++ shown (snd e))
            (filter allowed (Headers.entries inbound)))
       match Headers.get inbound "user-agent" with
       | Some ua => ["Forwarding User-Agent: " ++ ua]
       | None => []
       end).
Proof.
  unfold forwardHeadersLogged, forwardHeaders. rewrite scan_logged. cbn [List.app].
  rewrite (has_get inbound "user-agent").
  destruct (Headers.has inbound "user-agent"); [reflexivity|].
  now rewrite app_nil_r.
Qed.

(** X12. The filter writes one console line per header it forwards from
    the allow-list, in the order it forwards them, and none for a header
    it drops; the line shows three stars in place of a value that begins
    with [sk-] or [AIza] and the value itself otherwise.  The
    [User-Agent] line follows, with the value in full.  The header set
    it builds is the one of the filter without the console. *)
Theorem forwarding_log (inbound : Headers.t) :
  forwardHeadersLogged inbound
  = (forwardHeaders inbound,
     List.app
       (map (fun e => "Forwarding header: " ++ fst e ++ ": "
                      ++ (if Str.startsWith (snd e) "sk-" || Str.startsWith (snd e) "AIza"
                          then "***"
                          else snd e))
            (filter allowed (Headers.entries inbound)))
       match Headers.get inbound "user-agent" with
       | Some ua => ["Forwarding User-Agent: " ++ ua]
       | None => []
       end).
Proof. exact (forwardHeadersLogged_eq inbound). Qed.

Lemma allowed_entry_in (h : Headers.t) (name v : string) :
  includes allowedHeaders (Headers.toLowerCase name) = true ->
  Headers.get h name = Some v ->
  In (Headers.toLowerCase name, v) (filter allowed (Headers.entries h)).
Proof.
  intros A Hg. apply filter_In. split; [|unfold allowed; cbn [fst];
                                        now rewrite toLowerCase_idem].
  rewrite has_get in Hg. destruct (Headers.has h name) eqn:Hh; [|discriminate].
  injection Hg as <-.
  unfold Headers.entries. apply in_flat_map. exists (Headers.toLowerCase name).
  split; [now apply names_has|].
  unfold Headers.entries_of. rewrite (allowed_not_set_cookie name A).
  left. f_equal. f_equal. apply values_congr.
  rewrite name_eq_lower. apply name_eq_refl.
Qed.

(** X13. The stars do not cover a bearer token: when the request
    carries [Authorization: Bearer <token>], whatever the token, the
    console line of that header shows the token in full. *)
Theorem bearer_token_logged (inbound : Headers.t) (token : string) :
  Headers.get inbound "Authorization" = Some ("Bearer " ++ token) ->
  In ("Forwarding header: authorization: Bearer " ++ token)
     (snd (forwardHeadersLogged inbound)).
Proof.
  intros Hg. rewrite forwardHeadersLogged_eq. cbn [snd].
  apply in_or_app. left. apply in_map_iff.
  exists ("authorization", "Bearer " ++ token). split; [reflexivity|].
  now apply (allowed_entry_in inbound "Authorization").
Qed.

Lemma bearer_token_logged_witness :
  In "Forwarding header: authorization: Bearer sk-live-1"
     (snd (forwardHeadersLogged [("Authorization", "Bearer sk-live-1")])).
Proof.
  exact (bearer_token_logged [("Authorization", "Bearer sk-live-1")] "sk-live-1" eq_refl).
Defined.

(** ** Further properties of the relay *)

(** X14. In a relayed response each of the three defensive headers has
    one value, the one the proxy sets, also when the upstream sent its
    own; the [Set-Cookie] headers of the upstream stay separate and in
    order, each value with its leading and trailing white space
    removed; any other header the upstream repeated is relayed once,
    with its values joined by a comma and a space and the white space at
    both ends of the joined value removed. *)
Theorem relay_header_values (upstream relayed : Response.t) (name : string) :
  relay upstream = Some relayed ->
  Headers.values (Response.headers relayed) name
  = if Headers.name_eq "Referrer-Policy" name then ["no-referrer"]
    else if Headers.name_eq "X-Frame-Options" name then ["DENY"]
    else if Headers.name_eq "X-Content-Type-Options" name then ["nosniff"]
    else if Headers.toLowerCase name =? "set-cookie"
         then map Headers.normalize (Headers.values (Response.headers upstream) name)
         else match Headers.get (Response.headers upstream) name with
              | Some v => [Headers.normalize v]
              | None => []
              end.
Proof. exact (values_relay upstream relayed name). Qed.

Lemma relay_header_values_witness :
  exists relayed,
    relay varied = Some relayed
    /\ Headers.values (Response.headers relayed) "Vary" = ["Accept,"]
    /\ Headers.values (Response.headers relayed) "X-Frame-Options" = ["DENY"].
Proof.
  eexists. split; [reflexivity|]. split.
  - exact (relay_header_values varied _ "Vary" eq_refl).
  - exact (relay_header_values varied _ "X-Frame-Options" eq_refl).
Defined.
